(** * News scraper client (src/App.tsx): request lifecycle and derived view

    A shallow embedding of the stateful core of the [App] component:
    the seven [useState] cells, the mount-time [checkServer] probe, the
    asynchronous [scrapeNews] handler (split at its single [await]) and
    the derived [filteredAndSortedNews] view.  Run-time built-ins of the
    JavaScript engine that the component calls ([includes], [Date],
    [Array.prototype.sort]) are modelled in [Module JS]; what the
    language leaves to the engine and to Unicode ([toLowerCase],
    [localeCompare], date formats beyond the standard one) is a
    parameter, the record [JS.Engine].  Strings are held in UTF-8, as
    the literals of this file are. *)

From Stdlib Require Import List String Ascii ZArith Bool Lia.
From Stdlib Require Import Permutation Sorted.
Import ListNotations.

Local Open Scope string_scope.
Local Open Scope Z_scope.

(* ================================================================== *)
(** ** The JavaScript built-ins used by the component *)

Module JS.

(** A JavaScript number as the component meets it: an integral value
  or [NaN].  Time values are integers of magnitude at most 8.64e15;
  their differences are only ever inspected for their sign, which a
  double subtraction reports exactly. *)
Inductive number : Type :=
  | NaN : number
  | Num : Z -> number.

(** [x - y] on numbers: [NaN] is absorbing. *)
Definition sub (x y : number) : number :=
  match x, y with
  | Num a, Num b => Num (a - b)
  | _, _ => NaN
  end.

(** ToBoolean on a string: only the empty string is falsy. *)
Definition truthy (s : string) : bool :=
  match s with
  | EmptyString => false
  | String _ _ => true
  end.

(** [a || b] on strings. *)
Definition or_else (a b : string) : string :=
  if truthy a then a else b.

(** What [String.prototype.toLowerCase] does to ASCII text: the
  letters [A]..[Z] are mapped to [a]..[z], every other unit is kept.
  (What it does to other text is the engine's, see [Engine].) *)
Definition lower_ascii (c : ascii) : ascii :=
  let n := nat_of_ascii c in
  if (Nat.leb 65 n && Nat.leb n 90)%bool then ascii_of_nat (n + 32) else c.

Fixpoint fold_ascii (s : string) : string :=
  match s with
  | EmptyString => EmptyString
  | String c s' => String (lower_ascii c) (fold_ascii s')
  end.

(** [s.includes(p)]: [p] starts at some position of [s].  (Between
  well-formed strings this is the same question in UTF-8 as in
  UTF-16.) *)
Fixpoint includes (s p : string) : bool :=
  (String.prefix p s ||
   match s with
   | EmptyString => false
   | String _ s' => includes s' p
   end)%bool.

(** *** [Array.prototype.sort] with a comparator

  SortCompare turns a [NaN] answer of the comparator into [+0]; the
  sort then places [x] after [y] only when the comparator says
  [x > y].  The sort is stable (ECMAScript 2019).  It is modelled by
  a stable insertion sort.  For a consistent comparator the result of
  a stable sort is unique (see [stable_sort_unique] below), so the
  choice of algorithm does not show; for an inconsistent one
  ECMAScript leaves the order to the engine, and what is proved of
  such inputs is proved of this sort. *)
Definition after (v : number) : bool :=
  match v with
  | NaN => false
  | Num z => 0 <? z
  end.

Section Sort.
Context {A : Type} (comparefn : A -> A -> number).

Fixpoint insert (x : A) (l : list A) : list A :=
  match l with
  | [] => [x]
  | y :: l' =>
      if after (comparefn x y) then y :: insert x l' else x :: y :: l'
  end.

Definition sort (l : list A) : list A := fold_right insert [] l.
End Sort.

(** *** [new Date(s).getTime()]

  ECMAScript fixes the meaning of the date-time string format; the
  date-only forms [YYYY], [YYYY-MM] and [YYYY-MM-DD] denote UTC
  midnight.  Every other string is left to the engine
  ([Date_parse_impl] of the [Engine] record below), which answers
  [NaN] for what it does not recognise. *)
Definition digit (c : ascii) : option Z :=
  let n := nat_of_ascii c in
  if (Nat.leb 48 n && Nat.leb n 57)%bool then Some (Z.of_nat n - 48) else None.

Definition digits2 (a b : ascii) : option Z :=
  match digit a, digit b with
  | Some x, Some y => Some (10 * x + y)
  | _, _ => None
  end.

Definition digits4 (a b c d : ascii) : option Z :=
  match digits2 a b, digits2 c d with
  | Some x, Some y => Some (100 * x + y)
  | _, _ => None
  end.

Definition msPerDay : Z := 86400000.

Definition DayFromYear (y : Z) : Z :=
  365 * (y - 1970) + (y - 1969) / 4 - (y - 1901) / 100 + (y - 1601) / 400.

Definition InLeapYear (y : Z) : bool :=
  ((y mod 4 =? 0) && (negb (y mod 100 =? 0) || (y mod 400 =? 0)))%bool.

Definition DaysInMonth (y m : Z) : Z :=
  if m =? 2 then (if InLeapYear y then 29 else 28)
  else if ((m =? 4) || (m =? 6) || (m =? 9) || (m =? 11))%bool then 30
  else 31.

(** Days of the year that precede month [m] (1-based). *)
Fixpoint days_before (y : Z) (m : nat) : Z :=
  match m with
  | O => 0
  | S k => match k with
           | O => 0
           | S _ => days_before y k + DaysInMonth y (Z.of_nat k)
           end
  end.

Definition MakeDate (y m d : Z) : option Z :=
  if ((1 <=? m) && (m <=? 12) && (1 <=? d) && (d <=? DaysInMonth y m))%bool
  then Some ((DayFromYear y + days_before y (Z.to_nat m) + (d - 1)) * msPerDay)
  else None.

Definition opt_bind {A B : Type} (o : option A) (f : A -> option B) : option B :=
  match o with
  | Some a => f a
  | None => None
  end.

Definition parse_date_only (s : string) : option Z :=
  match list_ascii_of_string s with
  | [y1; y2; y3; y4] =>
      opt_bind (digits4 y1 y2 y3 y4) (fun y => MakeDate y 1 1)
  | [y1; y2; y3; y4; "-"%char; m1; m2] =>
      opt_bind (digits4 y1 y2 y3 y4) (fun y =>
      opt_bind (digits2 m1 m2) (fun m => MakeDate y m 1))
  | [y1; y2; y3; y4; "-"%char; m1; m2; "-"%char; d1; d2] =>
      opt_bind (digits4 y1 y2 y3 y4) (fun y =>
      opt_bind (digits2 m1 m2) (fun m =>
      opt_bind (digits2 d1 d2) (fun d => MakeDate y m d)))
  | _ => None
  end.

(** What the host engine contributes: [String.prototype.toLowerCase]
  (the Unicode case mapping, context rules included), the collation
  behind [String.prototype.localeCompare] and the engine's own date
  formats. *)
Record Engine : Type := {
  toLowerCase : string -> string;
  localeCompare : string -> string -> Z;
  Date_parse_impl : string -> option Z
}.

Definition getTime (E : Engine) (s : string) : number :=
  match parse_date_only s with
  | Some t => Num t
  | None =>
      match Date_parse_impl E s with
      | Some t => Num t
      | None => NaN
      end
  end.

End JS.

(* ================================================================== *)
(** ** Data of the component *)

(** [interface NewsItem]. *)
Module NewsItem.
Record t : Type := mk {
  title : string;
  author : string;
  date : string;
  source : string;
  url : string;
  imageUrl : option string
}.
End NewsItem.

(** [interface ApiError]: what the [catch] block reads off a rejected
    [axios.post].  [request] only matters for its truthiness. *)
Module ApiError.
Record body : Type := { error : option string }.
Record resp : Type := { data : option body }.
Record t : Type := {
  response : option resp;
  request : bool;
  message : string
}.
End ApiError.

(** A body whose [news] member can be read; the member may be
    missing. *)
Record ScrapeData : Type := { data_news : option (list NewsItem.t) }.

(** [response.data] of a fulfilled [POST /scrape].  Reading [.news] of
    [null] or [undefined] throws a [TypeError]; [thrown] is the message
    the engine gives it.  Of every other value the member is read. *)
Inductive Payload : Type :=
  | Nullish (thrown : string)
  | Body (d : ScrapeData).

(** How the awaited [axios.post] settles. *)
Inductive Settled : Type :=
  | Fulfilled (p : Payload)
  | Rejected (e : ApiError.t).

(** The request handed to axios: target and JSON body [{ url }]. *)
Record Request : Type := { target : string; body_url : string }.

Inductive ServerStatus : Type := checking | online | offline.

(** The union ['date' | 'title']. *)
Inductive SortKey : Type := SortDate | SortTitle.

(** The [useState] cells of [App]. *)
Record AppState : Type := {
  url : string;
  news : list NewsItem.t;
  loading : bool;
  filterKeyword : string;
  sortBy : SortKey;
  error : string;
  serverStatus : ServerStatus
}.

Definition initial : AppState :=
  {| url := ""; news := []; loading := false; filterKeyword := "";
     sortBy := SortDate; error := ""; serverStatus := checking |}.

(** The state setters. *)
Definition setUrl (v : string) (s : AppState) : AppState :=
  {| url := v; news := news s; loading := loading s;
     filterKeyword := filterKeyword s; sortBy := sortBy s;
     error := error s; serverStatus := serverStatus s |}.

Definition setNews (v : list NewsItem.t) (s : AppState) : AppState :=
  {| url := url s; news := v; loading := loading s;
     filterKeyword := filterKeyword s; sortBy := sortBy s;
     error := error s; serverStatus := serverStatus s |}.

Definition setLoading (v : bool) (s : AppState) : AppState :=
  {| url := url s; news := news s; loading := v;
     filterKeyword := filterKeyword s; sortBy := sortBy s;
     error := error s; serverStatus := serverStatus s |}.

Definition setFilterKeyword (v : string) (s : AppState) : AppState :=
  {| url := url s; news := news s; loading := loading s;
     filterKeyword := v; sortBy := sortBy s;
     error := error s; serverStatus := serverStatus s |}.

Definition setSortBy (v : SortKey) (s : AppState) : AppState :=
  {| url := url s; news := news s; loading := loading s;
     filterKeyword := filterKeyword s; sortBy := v;
     error := error s; serverStatus := serverStatus s |}.

Definition setError (v : string) (s : AppState) : AppState :=
  {| url := url s; news := news s; loading := loading s;
     filterKeyword := filterKeyword s; sortBy := sortBy s;
     error := v; serverStatus := serverStatus s |}.

Definition setServerStatus (v : ServerStatus) (s : AppState) : AppState :=
  {| url := url s; news := news s; loading := loading s;
     filterKeyword := filterKeyword s; sortBy := sortBy s;
     error := error s; serverStatus := v |}.

(** Statements of a handler run one after the other on the cells. *)
Definition Act : Type := AppState -> AppState.
Definition and_then (f g : Act) : Act := fun s => g (f s).
Notation "f ;; g" := (and_then f g) (at level 61, right associativity).

(** The Request State of the specification. *)
Definition RequestState : Type := (bool * list NewsItem.t * string)%type.
Definition request_state (s : AppState) : RequestState :=
  (loading s, news s, error s).

(** [API_BASE_URL]; [production] is [NODE_ENV === 'production']. *)
Definition API_BASE_URL (production : bool) : string :=
  if production then "/.netlify/functions" else "http://localhost:5000/api".

(** The messages the component shows. *)
Definition msg_offline : string :=
  "Server is offline. Please make sure the server is running on port 5000.".
Definition msg_no_url : string := "Please enter a website URL".
Definition msg_no_news : string :=
  "No news articles found. The website might use a different structure or dynamic loading.".
Definition msg_failed : string :=
  "Failed to scrape news. Please try a different URL.".
Definition msg_no_response : string :=
  "No response from server. Please make sure the server is running.".

(* ================================================================== *)
(** ** [checkServer] *)

(** The address [checkServer] probes, once, from the mount effect. *)
Definition checkServer_target (production : bool) : string :=
  API_BASE_URL production ++ "/test".

(** The continuation of [checkServer] after [await axios.get(.../test)]:
    [ok] tells whether the promise was fulfilled. *)
Definition checkServer_settle (ok : bool) : Act :=
  if ok then setServerStatus online
  else setServerStatus offline ;; setError msg_offline.

(* ================================================================== *)
(** ** [scrapeNews] *)

Section ScrapeNews.
Variable production : bool.

(** [scrapeNews] up to its [await]: the new cells and the request
    issued, if any. *)
Definition scrapeNews_begin (s : AppState) : AppState * option Request :=
  if negb (JS.truthy (url s)) then
    (setError msg_no_url s, None)
  else
    ((setLoading true ;; setError "" ;; setNews []) s,
     Some {| target := API_BASE_URL production ++ "/scrape";
             body_url := url s |}).

(** [apiError.response.data?.error]. *)
Definition response_error (r : ApiError.resp) : string :=
  match ApiError.data r with
  | Some b => match ApiError.error b with
              | Some e => e
              | None => ""
              end
  | None => ""
  end.

(** The text chosen by the [catch] block. *)
Definition catch_message (e : ApiError.t) : string :=
  match ApiError.response e with
  | Some r => JS.or_else (response_error r) msg_failed
  | None =>
      if ApiError.request e then msg_no_response
      else "Error: " ++ ApiError.message e
  end.

(** [response.data.news && response.data.news.length > 0]. *)
Definition has_news (d : ScrapeData) : bool :=
  match data_news d with
  | Some l => (0 <? Z.of_nat (List.length l))
  | None => false
  end.

Definition news_of (d : ScrapeData) : list NewsItem.t :=
  match data_news d with
  | Some l => l
  | None => []
  end.

(** What the [catch] block receives when the [try] body itself
    throws: an error with a message, no [response], no [request]. *)
Definition thrown_error (m : string) : ApiError.t :=
  {| ApiError.response := None; ApiError.request := false;
     ApiError.message := m |}.

(** [scrapeNews] from the point where the awaited promise settles:
    [try] body or [catch] block, then [finally]. *)
Definition scrapeNews_settle (r : Settled) : Act :=
  match r with
  | Fulfilled (Body d) =>
      if has_news d then setNews (news_of d) else setError msg_no_news
  | Fulfilled (Nullish m) => setError (catch_message (thrown_error m))
  | Rejected e => setError (catch_message e)
  end ;; setLoading false.

(** One whole call when no other handler runs while the request is
    out: [net] answers the request.  What may run in between (the
    probe settling, the error being closed, a row being picked) is in
    [Session] below. *)
Definition scrapeNews (net : Request -> Settled) (s : AppState) : AppState :=
  match scrapeNews_begin s with
  | (s', Some q) => scrapeNews_settle (net q) s'
  | (s', None) => s'
  end.
End ScrapeNews.

(* ================================================================== *)
(** ** [filteredAndSortedNews] *)

Section DeriveView.
Variable E : JS.Engine.

(** The predicate given to [filter]. *)
Definition keep (kw : string) (item : NewsItem.t) : bool :=
  (String.eqb kw "" ||
   JS.includes (JS.toLowerCase E (NewsItem.title item)) (JS.toLowerCase E kw) ||
   JS.includes (JS.toLowerCase E (NewsItem.author item)) (JS.toLowerCase E kw))%bool.

(** The comparator given to [sort]. *)
Definition comparefn (k : SortKey) (a b : NewsItem.t) : JS.number :=
  match k with
  | SortDate =>
      JS.sub (JS.getTime E (NewsItem.date b)) (JS.getTime E (NewsItem.date a))
  | SortTitle =>
      JS.Num (JS.localeCompare E (NewsItem.title a) (NewsItem.title b))
  end.

(** [deriveView] of the specification. *)
Definition deriveView (l : list NewsItem.t) (kw : string) (k : SortKey)
  : list NewsItem.t :=
  JS.sort (comparefn k) (filter (keep kw) l).

Definition filteredAndSortedNews (s : AppState) : list NewsItem.t :=
  deriveView (news s) (filterKeyword s) (sortBy s).
End DeriveView.

(* ================================================================== *)
(** ** The component as an event-driven machine *)

(** The [url] members of the [newsUrls] table. *)
Definition newsUrls : list string :=
  [ "https://news.abs-cbn.com/";
    "https://www.gmanetwork.com/news/";
    "https://www.rappler.com/";
    "https://newsinfo.inquirer.net/";
    "https://mb.com.ph/";
    "https://www.cnnphilippines.com/" ].

Module Session.

(** The cells together with what is still awaited: the requests of
    [scrapeNews] calls that have not settled, oldest first, and
    whether the mount-time probe is still out. *)
Record t : Type := {
  app : AppState;
  inflight : list Request;
  probing : bool
}.

(** The component right after mount: the effect has called
    [checkServer] once. *)
Definition start : t :=
  {| app := initial; inflight := []; probing := true |}.

Inductive Event : Type :=
  | ProbeSettled (ok : bool)
  | ChangeUrl (v : string)
  | PickUrl (i : nat)
  | ClickScrape
  | ScrapeSettled (i : nat) (r : Settled)
  | ChangeFilter (v : string)
  | ChangeSort (k : SortKey)
  | CloseError.

Definition with_app (f : Act) (w : t) : t :=
  {| app := f (app w); inflight := inflight w; probing := probing w |}.

(** The list without its [i]-th element, when it has one. *)
Fixpoint take_out {A : Type} (i : nat) (l : list A) : option (list A) :=
  match l, i with
  | [], _ => None
  | _ :: l', O => Some l'
  | x :: l', S j => option_map (cons x) (take_out j l')
  end.

Section Handlers.
Variable production : bool.

(** What each event runs, whether or not the page would let the
    user trigger it.  [None]: the event cannot occur (a promise
    that is not pending, a row that is not in the table). *)
Definition handle (e : Event) (w : t) : option t :=
  match e with
  | ProbeSettled ok =>
      if probing w then
        Some {| app := checkServer_settle ok (app w);
                inflight := inflight w; probing := false |}
      else None
  | ChangeUrl v => Some (with_app (setUrl v) w)
  | PickUrl i =>
      match nth_error newsUrls i with
      | Some v => Some (with_app (setUrl v) w)
      | None => None
      end
  | ClickScrape =>
      let (s', q) := scrapeNews_begin production (app w) in
      Some {| app := s';
              inflight := (inflight w ++
                           match q with Some r => [r] | None => [] end)%list;
              probing := probing w |}
  | ScrapeSettled i r =>
      match take_out i (inflight w) with
      | Some rest =>
          Some {| app := scrapeNews_settle r (app w);
                  inflight := rest; probing := probing w |}
      | None => None
      end
  | ChangeFilter v => Some (with_app (setFilterKeyword v) w)
  | ChangeSort k => Some (with_app (setSortBy k) w)
  | CloseError => Some (with_app (setError "") w)
  end.

(** The [disabled] and [open] attributes of the page: which
    user events the rendered controls accept. *)
Definition enabled (e : Event) (s : AppState) : bool :=
  match e with
  | ChangeUrl _ => negb (loading s)
  | ClickScrape => negb (loading s || negb (JS.truthy (url s)))
  | ChangeFilter _ | ChangeSort _ =>
      negb (Nat.eqb (List.length (news s)) 0)
  | CloseError => JS.truthy (error s)
  | PickUrl _ | ProbeSettled _ | ScrapeSettled _ _ => true
  end.

(** An event as the page admits it. *)
Definition ui_step (e : Event) (w : t) : option t :=
  if enabled e (app w) then handle e w else None.

Fixpoint run (step : Event -> t -> option t) (es : list Event) (w : t)
  : option t :=
  match es with
  | [] => Some w
  | e :: es' =>
      match step e w with
      | Some w' => run step es' w'
      | None => None
      end
  end.
End Handlers.

Definition is_probe (e : Event) : bool :=
  match e with
  | ProbeSettled _ => true
  | _ => false
  end.

End Session.

(* ================================================================== *)
(** ** Words of the specification and sample engines *)

(** JavaScript white space among ASCII code units: TAB, LF, VT, FF,
    CR and SPACE. *)
Definition white_space (c : ascii) : bool :=
  let n := nat_of_ascii c in
  ((Nat.leb 9 n && Nat.leb n 13) || Nat.eqb n 32)%bool.

(** "Empty or whitespace-only", in the specification's words. *)
Fixpoint blank (s : string) : bool :=
  match s with
  | EmptyString => true
  | String c s' => (white_space c && blank s')%bool
  end.

(** [p] is a contiguous part of [s]. *)
Definition occurs (p s : string) : Prop :=
  exists pre post : string, s = (pre ++ p ++ post)%string.

(** The two units are the same, or the two cases of one of the
    letters A to Z. *)
Definition is_upper (c : ascii) : bool :=
  (Nat.leb 65 (nat_of_ascii c) && Nat.leb (nat_of_ascii c) 90)%bool.

Definition same_letter (c d : ascii) : bool :=
  (Ascii.eqb c d ||
   (is_upper c && Nat.eqb (nat_of_ascii d) (nat_of_ascii c + 32)) ||
   (is_upper d && Nat.eqb (nat_of_ascii c) (nat_of_ascii d + 32)))%bool.

(** The two strings are the same but for the case of their letters:
    unit by unit they are the same letter. *)
Fixpoint same_ignoring_case (a b : string) : bool :=
  match a, b with
  | EmptyString, EmptyString => true
  | String c a', String d b' => (same_letter c d && same_ignoring_case a' b')%bool
  | _, _ => false
  end.

(** "[kw] occurs as a case-insensitive substring of [s]", in the
    specification's words: some contiguous part of [s] is [kw] but
    for the case of its letters.  A part that is [kw] verbatim is
    one. *)
Definition occurs_ignoring_case (kw s : string) : Prop :=
  exists pre t post : string,
    s = (pre ++ t ++ post)%string /\ same_ignoring_case t kw = true.

(** Text of ASCII units only. *)
Fixpoint is_ascii (s : string) : bool :=
  match s with
  | EmptyString => true
  | String c s' => (Nat.ltb (nat_of_ascii c) 128 && is_ascii s')%bool
  end.

Definition ascii_item (a : NewsItem.t) : bool :=
  (is_ascii (NewsItem.title a) && is_ascii (NewsItem.author a))%bool.

(** What every engine does: on ASCII text [toLowerCase] maps [A]..[Z]
    to [a]..[z] and keeps the rest. *)
Definition folds_ascii (E : JS.Engine) : Prop :=
  forall s, is_ascii s = true -> JS.toLowerCase E s = JS.fold_ascii s.

(** What ECMAScript asks of a collation: the comparison is a
    consistent comparator. *)
Record Collation (lc : string -> string -> Z) : Prop := {
  lc_antisym : forall a b, lc a b < 0 <-> 0 < lc b a;
  lc_trans : forall a b c, lc a b <= 0 -> lc b c <= 0 -> lc a c <= 0
}.

(** A sample collation in the manner of alphabetic ones: letters are
    ranked [a < A < b < B < ...], before any other unit comes into
    play; strings are compared rank by rank. *)
Definition rank (c : ascii) : Z :=
  let n := Z.of_nat (nat_of_ascii c) in
  if ((97 <=? n) && (n <=? 122))%bool then 1000 + 2 * (n - 97)
  else if ((65 <=? n) && (n <=? 90))%bool then 1000 + 2 * (n - 65) + 1
  else n.

Fixpoint lex (a b : list Z) : Z :=
  match a, b with
  | [], [] => 0
  | [], _ :: _ => -1
  | _ :: _, [] => 1
  | x :: a', y :: b' => if x =? y then lex a' b' else x - y
  end.

Definition alphabetic (a b : string) : Z :=
  lex (map rank (list_ascii_of_string a)) (map rank (list_ascii_of_string b)).

(** An engine with that collation, no date format of its own, and a
    [toLowerCase] that folds the ASCII letters only. *)
Definition plain_engine : JS.Engine :=
  {| JS.toLowerCase := JS.fold_ascii;
     JS.localeCompare := alphabetic;
     JS.Date_parse_impl := fun _ => None |}.

(** A [toLowerCase] that also knows the Greek letters, in UTF-8: the
    capitals [CE 91]..[CE A9] go to [CE B1]..[CE BF] and
    [CF 80]..[CF 89]; the capital sigma [CE A3] goes to the final
    form [CF 82] when a letter stands before it and none after it
    (Final_Sigma of the Unicode SpecialCasing that ECMA-262 follows),
    and to [CF 83] otherwise. *)
Definition ascii_letter (n : nat) : bool :=
  ((Nat.leb 65 n && Nat.leb n 90) || (Nat.leb 97 n && Nat.leb n 122))%bool.

Definition greek_letter (n m : nat) : bool :=
  ((Nat.eqb n 206 &&
    ((Nat.leb 145 m && Nat.leb m 169 && negb (Nat.eqb m 162)) ||
     (Nat.leb 177 m && Nat.leb m 191))) ||
   (Nat.eqb n 207 && Nat.leb 128 m && Nat.leb m 137))%bool.

Definition starts_with_letter (l : list ascii) : bool :=
  match l with
  | [] => false
  | c :: l' =>
      (ascii_letter (nat_of_ascii c) ||
       match l' with
       | d :: _ => greek_letter (nat_of_ascii c) (nat_of_ascii d)
       | [] => false
       end)%bool
  end.

Fixpoint greek_lower (after_letter : bool) (l : list ascii) : list ascii :=
  match l with
  | [] => []
  | c :: l' =>
      let n := nat_of_ascii c in
      if ascii_letter n then JS.lower_ascii c :: greek_lower true l'
      else
        match l' with
        | d :: l'' =>
            let m := nat_of_ascii d in
            if greek_letter n m then
              (if (Nat.eqb n 206 && Nat.leb m 169)%bool then
                 if Nat.eqb m 163 then
                   if (after_letter && negb (starts_with_letter l''))%bool
                   then [ascii_of_nat 207; ascii_of_nat 130]
                   else [ascii_of_nat 207; ascii_of_nat 131]
                 else if Nat.leb m 159
                      then [ascii_of_nat 206; ascii_of_nat (m + 32)]
                      else [ascii_of_nat 207; ascii_of_nat (m - 32)]
               else [c; d])
              ++ greek_lower true l''
            else c :: greek_lower false l'
        | [] => [c]
        end
  end.

Definition final_sigma_engine : JS.Engine :=
  {| JS.toLowerCase := fun s =>
       string_of_list_ascii (greek_lower false (list_ascii_of_string s));
     JS.localeCompare := alphabetic;
     JS.Date_parse_impl := fun _ => None |}.

(** A news item with the given title, author and date. *)
Definition item (t a d : string) : NewsItem.t :=
  NewsItem.mk t a d "src" "https://example.org/a" None.

(** A fulfilled response carrying the list [l]. *)
Definition ok_with (l : list NewsItem.t) : Settled :=
  Fulfilled (Body {| data_news := Some l |}).

(** A rejection that carries a response with an error body. *)
Definition blocked_error : ApiError.t :=
  {| ApiError.response :=
       Some {| ApiError.data := Some {| ApiError.error := Some "Blocked" |} |};
     ApiError.request := true;
     ApiError.message := "Request failed with status code 500" |}.

(** The time value used for ordering when every date parses; [0]
    stands in where there is none. *)
Definition time_of (E : JS.Engine) (a : NewsItem.t) : Z :=
  match JS.getTime E (NewsItem.date a) with
  | JS.Num t => t
  | JS.NaN => 0
  end.

Definition parses (E : JS.Engine) (a : NewsItem.t) : Prop :=
  JS.getTime E (NewsItem.date a) <> JS.NaN.

(** *** Orders and invariants the statements speak of *)

Section SortOrder.
Context {A : Type}.
Variable cmp : A -> A -> JS.number.

(** [x] may stand before [y]: the comparator does not ask for [x]
    after [y]. *)
Definition precedes (x y : A) : Prop := JS.after (cmp x y) = false.

(** [x] and [y] are ranked equal by the comparator. *)
Definition tied (x y : A) : bool :=
  (negb (JS.after (cmp x y)) && negb (JS.after (cmp y x)))%bool.

(** A consistent comparator, as far as the sort looks at it. *)
Record Consistent : Prop := {
  gt_asym : forall x y,
    JS.after (cmp x y) = true -> JS.after (cmp y x) = false;
  gt_negtrans : forall x y z,
    JS.after (cmp x z) = true ->
    JS.after (cmp x y) = true \/ JS.after (cmp y z) = true
}.

End SortOrder.

(** The date comparator between items whose dates parse. *)
Definition by_time (E : JS.Engine) (a b : NewsItem.t) : JS.number :=
  JS.Num (time_of E b - time_of E a).

(** What the page maintains: a request is in flight exactly while
    [loading] is on, and then there is only one. *)
Definition one_at_a_time (w : Session.t) : Prop :=
  (loading (Session.app w) = false /\ Session.inflight w = []) \/
  (loading (Session.app w) = true /\ List.length (Session.inflight w) = 1%nat).

(** The status is [checking] exactly while the probe is out. *)
Definition probe_pending_iff_checking (w : Session.t) : Prop :=
  Session.probing w = true <-> serverStatus (Session.app w) = checking.

(** Runs that differ in the probe's answer only: the cells other than
    [serverStatus], and the requests in flight, evolve alike. *)
Definition apart_from_status (w : Session.t) : AppState * list Request :=
  (setServerStatus checking (Session.app w), Session.inflight w).

(* ================================================================== *)
(** ** What [App] returns *)

(** The parts of the rendered page that depend on the cells: which
    conditional elements are present, what the controls' [disabled]
    attributes are, and which texts are shown.  Layout and styling are
    left out. *)
Record Page : Type := {
  chip_online : bool;
  spinner_checking : bool;
  banner_offline : bool;
  url_value : string;
  url_disabled : bool;
  scrape_disabled : bool;
  scrape_busy : bool;
  filter_value : string;
  filter_disabled : bool;
  sort_value : SortKey;
  sort_disabled : bool;
  current_url : string;
  current_url_dimmed : bool;
  alert : option string;
  spinner_loading : bool;
  cards : option (list NewsItem.t);
  snackbar : option string
}.

(** [error && <Alert>{error}</Alert>] and [open={!!error}]. *)
Definition when_text (e : string) : option string :=
  if JS.truthy e then Some e else None.

(** [item.imageUrl && <CardMedia image={item.imageUrl} />]. *)
Definition card_image (a : NewsItem.t) : option string :=
  match NewsItem.imageUrl a with
  | Some u => when_text u
  | None => None
  end.

Definition server_status_eqb (a b : ServerStatus) : bool :=
  match a, b with
  | checking, checking | online, online | offline, offline => true
  | _, _ => false
  end.

Section Render.
Variable E : JS.Engine.

Definition render (s : AppState) : Page :=
  {| chip_online := server_status_eqb (serverStatus s) online;
     spinner_checking := server_status_eqb (serverStatus s) checking;
     banner_offline := server_status_eqb (serverStatus s) offline;
     url_value := url s;
     url_disabled := loading s;
     scrape_disabled := (loading s || negb (JS.truthy (url s)))%bool;
     scrape_busy := loading s;
     filter_value := filterKeyword s;
     filter_disabled := Nat.eqb (List.length (news s)) 0;
     sort_value := sortBy s;
     sort_disabled := Nat.eqb (List.length (news s)) 0;
     current_url := JS.or_else (url s) "No URL entered";
     current_url_dimmed := negb (JS.truthy (url s));
     alert := when_text (error s);
     spinner_loading := loading s;
     cards :=
       if (negb (loading s) && (0 <? Z.of_nat (List.length (news s))))%bool
       then Some (filteredAndSortedNews E s)
       else None;
     snackbar := when_text (error s) |}.
End Render.

(** *** Invariants of runs *)

(** While a fetch is shown as running, no article is held and a
    request is out. *)
Definition fetching_holds_nothing (w : Session.t) : Prop :=
  loading (Session.app w) = true ->
  news (Session.app w) = [] /\ Session.inflight w <> [].

(** A request as [scrapeNews] builds it from a URL that passed the
    button. *)
Definition well_formed (production : bool) (q : Request) : Prop :=
  target q = (API_BASE_URL production ++ "/scrape")%string /\
  body_url q <> "".

(** While a request is out, the URL cell is not empty. *)
Definition url_kept_while_out (w : Session.t) : Prop :=
  Session.inflight w = [] \/ JS.truthy (url (Session.app w)) = true.

(** The two titles are ranked equal by the collation. *)
Definition same_rank (E : JS.Engine) (x a : NewsItem.t) : bool :=
  ((JS.localeCompare E (NewsItem.title x) (NewsItem.title a) <=? 0) &&
   (JS.localeCompare E (NewsItem.title a) (NewsItem.title x) <=? 0))%bool.

(** What makes the comparator of [filteredAndSortedNews] a consistent
    one on a result set: a collation for titles, dates that parse. *)
Definition orderly (E : JS.Engine) (k : SortKey) (l : list NewsItem.t) : Prop :=
  match k with
  | SortTitle => Collation (JS.localeCompare E)
  | SortDate => Forall (parses E) l
  end.

(** A short run: a URL is typed and the button clicked; and the
    session it leads to, with the request out. *)
Definition typed_and_clicked : list Session.Event :=
  [ Session.ChangeUrl "https://mb.com.ph/"; Session.ClickScrape ].

Definition awaiting_response : Session.t :=
  {| Session.app :=
       {| url := "https://mb.com.ph/"; news := []; loading := true;
          filterKeyword := ""; sortBy := SortDate; error := "";
          serverStatus := checking |};
     Session.inflight :=
       [ {| target := "http://localhost:5000/api/scrape";
            body_url := "https://mb.com.ph/" |} ];
     Session.probing := true |}.

(** The run goes on, the response arrives: a list of two articles. *)
Definition two_articles : list NewsItem.t :=
  [ item "a1" "x" "2024-01-10"; item "a2" "y" "2024-03-01" ].

Definition showing_articles : Session.t :=
  {| Session.app :=
       {| url := "https://mb.com.ph/"; news := two_articles; loading := false;
          filterKeyword := ""; sortBy := SortDate; error := "";
          serverStatus := checking |};
     Session.inflight := [];
     Session.probing := true |}.






(** *** What a response writes *)






(** The short run, answered with the two articles. *)
Definition answered : list Session.Event :=
  (typed_and_clicked ++ [ Session.ScrapeSettled 0 (ok_with two_articles) ])%list.


(* ================================================================== *)
(** ** Facts about the built-ins *)

Lemma truthy_false_iff (s : string) : JS.truthy s = false <-> s = "".
Proof.
  destruct s; simpl; split; intro H; try reflexivity; discriminate.
Qed.

Lemma truthy_true_iff (s : string) : JS.truthy s = true <-> s <> "".
Proof.
  destruct s; simpl; split; intro H; try discriminate; try reflexivity.
  now contradiction H.
Qed.

Lemma prefix_spec (p s : string) :
  String.prefix p s = true <-> exists post, s = (p ++ post)%string.
Proof.
  revert s; induction p as [|c p IH]; intros s.
  - split; [intros _; now exists s | intros _; destruct s; reflexivity].
  - destruct s as [|d s]; simpl.
    + split; [discriminate | intros [post H]; discriminate].
    + destruct (ascii_dec c d) as [->|Hne].
      * rewrite IH. split; intros [post H]; exists post;
          [now rewrite H | now injection H].
      * split; [discriminate|].
        intros [post H]. injection H as H1 _. now contradiction Hne.
Qed.

Lemma includes_nil (p : string) :
  JS.includes "" p = (String.prefix p "" || false)%bool.
Proof. reflexivity. Qed.

Lemma includes_cons (c : ascii) (s p : string) :
  JS.includes (String c s) p =
  (String.prefix p (String c s) || JS.includes s p)%bool.
Proof. reflexivity. Qed.

Lemma includes_spec (s p : string) :
  JS.includes s p = true <->
  exists pre post, s = (pre ++ p ++ post)%string.
Proof.
  induction s as [|c s IH].
  - rewrite includes_nil, orb_false_r, prefix_spec. split.
    + intros [post H]. now exists "", post.
    + intros [[|d pre] [post H]]; [now exists post | discriminate].
  - rewrite includes_cons, orb_true_iff, prefix_spec, IH. split.
    + intros [[post H] | [pre [post H]]].
      * now exists "", post.
      * exists (String c pre), post. simpl. now rewrite H.
    + intros [[|d pre] [post H]].
      * left. now exists post.
      * right. exists pre, post. simpl in H. now injection H.
Qed.

Lemma includes_empty (s : string) : JS.includes s "" = true.
Proof. destruct s; reflexivity. Qed.

(** *** The sort *)

Section SortFacts.
Context {A : Type}.
Variable cmp : A -> A -> JS.number.

Lemma insert_perm (x : A) (l : list A) :
  Permutation (JS.insert cmp x l) (x :: l).
Proof.
  induction l as [|y l IH]; simpl.
  - apply Permutation_refl.
  - destruct (JS.after (cmp x y)).
    + eapply perm_trans; [apply perm_skip, IH | apply perm_swap].
    + apply Permutation_refl.
Qed.

Lemma sort_perm (l : list A) : Permutation (JS.sort cmp l) l.
Proof.
  induction l as [|x l IH]; simpl.
  - constructor.
  - eapply perm_trans; [apply insert_perm | now apply perm_skip].
Qed.

Lemma sort_In (a : A) (l : list A) : In a (JS.sort cmp l) <-> In a l.
Proof.
  split; apply Permutation_in;
    [apply sort_perm | apply Permutation_sym, sort_perm].
Qed.

Lemma sort_length (l : list A) :
  List.length (JS.sort cmp l) = List.length l.
Proof. apply Permutation_length, sort_perm. Qed.

Section WithConsistent.
Hypothesis C : Consistent cmp.

Lemma precedes_trans (x y z : A) :
  (precedes cmp) x y -> (precedes cmp) y z -> (precedes cmp) x z.
Proof.
  unfold precedes. intros Hxy Hyz.
  destruct (JS.after (cmp x z)) eqn:Hxz; [|reflexivity].
  destruct (gt_negtrans cmp C x y z Hxz); congruence.
Qed.

Lemma precedes_refl (x : A) : (precedes cmp) x x.
Proof.
  unfold precedes. destruct (JS.after (cmp x x)) eqn:H; [|reflexivity].
  now rewrite (gt_asym cmp C _ _ H) in H.
Qed.

Lemma tied_refl (x : A) : (tied cmp) x x = true.
Proof. unfold tied. now rewrite (precedes_refl x). Qed.

Lemma tied_sym (x y : A) : (tied cmp) x y = (tied cmp) y x.
Proof. unfold tied. apply andb_comm. Qed.

Lemma tied_iff (x y : A) :
  (tied cmp) x y = true <-> (precedes cmp) x y /\ (precedes cmp) y x.
Proof.
  unfold tied, precedes.
  rewrite andb_true_iff, !negb_true_iff. tauto.
Qed.

Lemma tied_trans (x y z : A) :
  (tied cmp) x y = true -> (tied cmp) y z = true -> (tied cmp) x z = true.
Proof.
  rewrite !tied_iff. intros [H1 H2] [H3 H4].
  split; eapply precedes_trans; eassumption.
Qed.

Lemma insert_sorted (x : A) (l : list A) :
  StronglySorted (precedes cmp) l ->
  StronglySorted (precedes cmp) (JS.insert cmp x l).
Proof.
  induction 1 as [|y l Hs IH Hall]; simpl.
  - repeat constructor.
  - destruct (JS.after (cmp x y)) eqn:Hxy.
    + constructor; [exact IH|].
      apply (Permutation_Forall (Permutation_sym (insert_perm x l))).
      constructor; [exact (gt_asym cmp C _ _ Hxy) | exact Hall].
    + constructor; [now constructor|].
      constructor; [exact Hxy|].
      revert Hall. apply Forall_impl. intros z Hyz.
      now apply precedes_trans with y.
Qed.

Lemma sort_sorted (l : list A) : StronglySorted (precedes cmp) (JS.sort cmp l).
Proof.
  induction l as [|x l IH]; simpl;
    [constructor | now apply insert_sorted].
Qed.

(** Stability: the items ranked equal to [x] keep their order. *)
Lemma insert_stable (x y : A) (l : list A) :
  filter ((tied cmp) x) (JS.insert cmp y l) = filter ((tied cmp) x) (y :: l).
Proof.
  induction l as [|z l IH]; [reflexivity|].
  cbn [JS.insert]. destruct (JS.after (cmp y z)) eqn:Hyz; [|reflexivity].
  cbn [filter] in *. rewrite IH.
  destruct ((tied cmp) x y) eqn:Hxy; [|reflexivity].
  destruct ((tied cmp) x z) eqn:Hxz; [|reflexivity].
  exfalso.
  assert (Hyz' : (tied cmp) y z = true).
  { apply tied_trans with x; [now rewrite tied_sym | exact Hxz]. }
  apply tied_iff in Hyz'. destruct Hyz' as [Hp _].
  unfold precedes in Hp. congruence.
Qed.

Lemma sort_stable (x : A) (l : list A) :
  filter ((tied cmp) x) (JS.sort cmp l) = filter ((tied cmp) x) l.
Proof.
  induction l as [|y l IH]; [reflexivity|].
  cbn [JS.sort fold_right]. fold (JS.sort cmp l).
  rewrite insert_stable. cbn [filter]. now rewrite IH.
Qed.

(** A sorted list is determined by its runs of (tied cmp) items: any
    stable sort returns what [JS.sort] returns. *)
Lemma sorted_stable_unique (l1 l2 : list A) :
  StronglySorted (precedes cmp) l1 ->
  StronglySorted (precedes cmp) l2 ->
  (forall x, filter ((tied cmp) x) l1 = filter ((tied cmp) x) l2) ->
  l1 = l2.
Proof.
  intros H1; revert l2.
  induction H1 as [|a t1 Hs1 IH Ha]; intros l2 H2 Hf.
  - destruct l2 as [|b t2]; [reflexivity|].
    specialize (Hf b). cbn [filter] in Hf.
    rewrite tied_refl in Hf. discriminate.
  - destruct H2 as [|b t2 Hs2 Hb].
    + specialize (Hf a). cbn [filter] in Hf.
      rewrite tied_refl in Hf. discriminate.
    + assert (Hina : In a (b :: t2)).
      { assert (Hi : In a (filter ((tied cmp) a) (b :: t2))).
        { rewrite <- Hf. cbn [filter]. rewrite tied_refl. now left. }
        now apply filter_In in Hi. }
      assert (Hinb : In b (a :: t1)).
      { assert (Hi : In b (filter ((tied cmp) b) (a :: t1))).
        { rewrite Hf. cbn [filter]. rewrite tied_refl. now left. }
        now apply filter_In in Hi. }
      assert (Hba : (precedes cmp) b a).
      { destruct Hina as [->|Hin]; [apply precedes_refl|].
        rewrite Forall_forall in Hb. now apply Hb. }
      assert (Hab : (precedes cmp) a b).
      { destruct Hinb as [->|Hin]; [apply precedes_refl|].
        rewrite Forall_forall in Ha. now apply Ha. }
      assert (Ht : (tied cmp) a b = true) by now apply tied_iff.
      pose proof (Hf a) as Hfa. cbn [filter] in Hfa.
      rewrite tied_refl, Ht in Hfa. injection Hfa as Heq _.
      subst b. f_equal. apply IH; [exact Hs2|].
      intros x. specialize (Hf x). cbn [filter] in Hf.
      destruct ((tied cmp) x a); [now injection Hf | exact Hf].
Qed.

Theorem stable_sort_unique (l l' : list A) :
  StronglySorted (precedes cmp) l' ->
  (forall x, filter ((tied cmp) x) l' = filter ((tied cmp) x) l) ->
  l' = JS.sort cmp l.
Proof.
  intros Hs Hf. apply sorted_stable_unique; [exact Hs | apply sort_sorted|].
  intros x. now rewrite Hf, sort_stable.
Qed.
End WithConsistent.
End SortFacts.

(** The sort only looks at the comparator on the items it is given. *)
Lemma sort_ext {A : Type} (c1 c2 : A -> A -> JS.number) (l : list A) :
  (forall x y, In x l -> In y l -> JS.after (c1 x y) = JS.after (c2 x y)) ->
  JS.sort c1 l = JS.sort c2 l.
Proof.
  induction l as [|x l IH]; intros H; [reflexivity|].
  cbn [JS.sort fold_right]. fold (JS.sort c1 l) (JS.sort c2 l).
  rewrite IH by (intros; apply H; now right).
  assert (Hin : forall y, In y (JS.sort c2 l) -> In y l)
    by (intros y; apply sort_In).
  revert Hin. generalize (JS.sort c2 l) as m.
  induction m as [|y m IHm]; intros Hin; [reflexivity|].
  cbn [JS.insert].
  rewrite (H x y) by (simpl; auto using in_eq).
  rewrite IHm by (intros; apply Hin; now right).
  reflexivity.
Qed.

(* ================================================================== *)
(** ** The request lifecycle *)

Lemma begin_nonempty (production : bool) (s : AppState) :
  url s <> "" ->
  scrapeNews_begin production s =
    (setNews [] (setError "" (setLoading true s)),
     Some {| target := API_BASE_URL production ++ "/scrape";
             body_url := url s |}).
Proof.
  intros H. unfold scrapeNews_begin.
  apply truthy_true_iff in H. now rewrite H.
Qed.

Lemma settle_loading (r : Settled) (s : AppState) :
  loading (scrapeNews_settle r s) = false.
Proof. reflexivity. Qed.

Lemma begin_serverStatus (production : bool) (s : AppState) :
  serverStatus (fst (scrapeNews_begin production s)) = serverStatus s.
Proof. unfold scrapeNews_begin. now destruct (JS.truthy (url s)). Qed.

Lemma settle_serverStatus (r : Settled) (s : AppState) :
  serverStatus (scrapeNews_settle r s) = serverStatus s.
Proof.
  destruct r as [[m|d]|e]; unfold scrapeNews_settle, and_then;
    try destruct (has_news d); reflexivity.
Qed.

Lemma settle_url (r : Settled) (s : AppState) :
  url (scrapeNews_settle r s) = url s.
Proof.
  destruct r as [[m|d]|e]; unfold scrapeNews_settle, and_then;
    try destruct (has_news d); reflexivity.
Qed.

(** After a call that got past validation, the Request State is a
    function of the way the request settled, and of nothing else. *)
Lemma scrapeNews_request_state (production : bool) (net : Request -> Settled)
    (s s' : AppState) :
  url s <> "" -> url s' = url s ->
  request_state (scrapeNews production net s') =
  request_state (scrapeNews production net s).
Proof.
  intros H Hu. unfold scrapeNews.
  rewrite !begin_nonempty by congruence. rewrite Hu.
  destruct (net _) as [[m|d]|e]; unfold scrapeNews_settle, and_then;
    try destruct (has_news d); reflexivity.
Qed.

(** C2, as amended.  When [url] is the empty string, [scrapeNews] sets
    the error text to "Please enter a website URL", issues no request,
    and leaves [loading] and [news] as they were. *)
Theorem empty_url_rejected (production : bool) (s : AppState) :
  url s = "" ->
  scrapeNews_begin production s = (setError msg_no_url s, None) /\
  (forall net,
     let s' := scrapeNews production net s in
     error s' = "Please enter a website URL" /\
     loading s' = loading s /\ news s' = news s).
Proof.
  intros H. unfold scrapeNews, scrapeNews_begin.
  apply truthy_false_iff in H. rewrite H. simpl. auto.
Qed.

Lemma empty_url_rejected_witness :
  url initial = "" /\
  scrapeNews_begin false initial = (setError msg_no_url initial, None) /\
  (forall net,
     let s' := scrapeNews false net initial in
     error s' = "Please enter a website URL" /\
     loading s' = loading initial /\ news s' = news initial).
Proof.
  split; [reflexivity|].
  apply (empty_url_rejected false initial). reflexivity.
Defined.

(** C2 as stated fails: a [url] made of one space is whitespace-only,
    yet the call turns [loading] on, clears the error and posts the
    space to the scraping endpoint. *)
Lemma whitespace_url_is_posted :
  blank (url (setUrl " " initial)) = true /\
  scrapeNews_begin false (setUrl " " initial) =
    ({| url := " "; news := []; loading := true; filterKeyword := "";
        sortBy := SortDate; error := ""; serverStatus := checking |},
     Some {| target := "http://localhost:5000/api/scrape"; body_url := " " |}).
Proof. split; reflexivity. Qed.

(** C4.  When the awaited request is rejected, the error text is
    chosen in this order: with a response, its body's error text when
    there is a non-empty one and the generic text otherwise; without a
    response but with a request, the no-response text; otherwise
    "Error: " followed by the failure's message. *)
Theorem rejection_message_precedence (production : bool) (s : AppState)
    (e : ApiError.t) :
  url s <> "" ->
  let s' := scrapeNews production (fun _ => Rejected e) s in
  (forall r, ApiError.response e = Some r ->
     (forall b t, ApiError.data r = Some b -> ApiError.error b = Some t ->
        t <> "" -> error s' = t) /\
     (forall b, ApiError.data r = Some b ->
        ApiError.error b = None \/ ApiError.error b = Some "" ->
        error s' = "Failed to scrape news. Please try a different URL.") /\
     (ApiError.data r = None ->
        error s' = "Failed to scrape news. Please try a different URL.")) /\
  (ApiError.response e = None -> ApiError.request e = true ->
     error s' =
       "No response from server. Please make sure the server is running.") /\
  (ApiError.response e = None -> ApiError.request e = false ->
     error s' = ("Error: " ++ ApiError.message e)%string).
Proof.
  intros H s'. subst s'. unfold scrapeNews.
  rewrite begin_nonempty by exact H.
  unfold scrapeNews_settle, and_then, catch_message, response_error. simpl.
  split; [|split].
  - intros r Hr. rewrite Hr. split; [|split].
    + intros b t Hd He Ht. rewrite Hd, He.
      apply truthy_true_iff in Ht. unfold JS.or_else. now rewrite Ht.
    + intros b Hd [He|He]; now rewrite Hd, He.
    + intros Hd. now rewrite Hd.
  - intros Hr Hq. now rewrite Hr, Hq.
  - intros Hr Hq. now rewrite Hr, Hq.
Qed.

Lemma rejection_message_precedence_witness :
  url (setUrl "https://mb.com.ph/" initial) <> "" /\
  error (scrapeNews false (fun _ => Rejected blocked_error)
           (setUrl "https://mb.com.ph/" initial)) = "Blocked".
Proof.
  split; [discriminate|].
  destruct (rejection_message_precedence false
              (setUrl "https://mb.com.ph/" initial) blocked_error)
    as [H _]; [discriminate|].
  destruct (H _ eq_refl) as [H1 _].
  apply (H1 _ "Blocked" eq_refl eq_refl). discriminate.
Defined.

(** C7.  For a non-empty [url], however the request settles (a list
    of news, an empty or missing list, a null body, a rejection with a
    response, with a request only, or with neither), the call ends
    with [loading = false]. *)
Theorem loading_false_in_every_path (production : bool) (s : AppState)
    (net : Request -> Settled) :
  url s <> "" -> loading (scrapeNews production net s) = false.
Proof.
  intros H. unfold scrapeNews. rewrite begin_nonempty by exact H.
  apply settle_loading.
Qed.

Lemma loading_false_in_every_path_witness :
  url (setUrl "https://mb.com.ph/" initial) <> "" /\
  loading (scrapeNews true (fun _ => Rejected blocked_error)
             (setUrl "https://mb.com.ph/" initial)) = false.
Proof.
  split; [discriminate|].
  apply (loading_false_in_every_path true). discriminate.
Defined.

(** The six ways the awaited request can settle. *)
Lemma settled_cases (r : Settled) :
  (exists l, l <> [] /\ r = ok_with l) \/
  (exists d, r = Fulfilled (Body d) /\ has_news d = false) \/
  (exists m, r = Fulfilled (Nullish m)) \/
  (exists e, r = Rejected e /\ ApiError.response e <> None) \/
  (exists e, r = Rejected e /\ ApiError.response e = None /\
             ApiError.request e = true) \/
  (exists e, r = Rejected e /\ ApiError.response e = None /\
             ApiError.request e = false).
Proof.
  destruct r as [[m|[[[|a l]|]]]|e].
  - right; right; left. now exists m.
  - right; left. now eexists.
  - left. exists (a :: l). now split.
  - right; left. now eexists.
  - destruct (ApiError.response e) eqn:Hr.
    + do 3 right; left. exists e. split; congruence.
    + destruct (ApiError.request e) eqn:Hq.
      * do 4 right; left. now exists e.
      * do 5 right. now exists e.
Qed.

(** C10.  [scrapeNews] does not read [serverStatus]: from two states
    with the same [url] and the same Request State, whatever their
    server status, the same request is issued, the same answers lead
    to the same Request State, and the Scrape button is enabled in the
    one exactly when it is in the other. *)
Theorem scrape_ignores_server_status (production : bool)
    (net : Request -> Settled) (s1 s2 : AppState) :
  url s1 = url s2 ->
  request_state s1 = request_state s2 ->
  snd (scrapeNews_begin production s1) = snd (scrapeNews_begin production s2) /\
  request_state (scrapeNews production net s1) =
    request_state (scrapeNews production net s2) /\
  Session.enabled Session.ClickScrape s1 =
    Session.enabled Session.ClickScrape s2.
Proof.
  intros Hu Hr. unfold request_state in Hr.
  injection Hr as Hl Hn He.
  unfold scrapeNews, scrapeNews_begin, Session.enabled.
  rewrite Hu, Hl. destruct (JS.truthy (url s2)); simpl.
  - repeat split.
    destruct (net _) as [[m|d]|e]; unfold scrapeNews_settle, and_then;
      try destruct (has_news d); reflexivity.
  - repeat split. unfold request_state. simpl. now rewrite Hl, Hn.
Qed.

Lemma scrape_ignores_server_status_witness :
  url (setServerStatus offline (setUrl "https://mb.com.ph/" initial)) =
    url (setServerStatus online (setUrl "https://mb.com.ph/" initial)) /\
  request_state (setServerStatus offline (setUrl "https://mb.com.ph/" initial)) =
    request_state (setServerStatus online (setUrl "https://mb.com.ph/" initial)) /\
  request_state
    (scrapeNews false (fun _ => ok_with [item "a1" "x" "2024-01-10"])
       (setServerStatus offline (setUrl "https://mb.com.ph/" initial))) =
  request_state
    (scrapeNews false (fun _ => ok_with [item "a1" "x" "2024-01-10"])
       (setServerStatus online (setUrl "https://mb.com.ph/" initial))).
Proof.
  split; [reflexivity|]. split; [reflexivity|].
  apply (scrape_ignores_server_status false
           (fun _ => ok_with [item "a1" "x" "2024-01-10"])
           (setServerStatus offline (setUrl "https://mb.com.ph/" initial))
           (setServerStatus online (setUrl "https://mb.com.ph/" initial)));
    reflexivity.
Defined.

(* ================================================================== *)
(** ** Runs of the component *)

Module SessionFacts.
Import Session.

Lemma take_out_single {A : Type} (i : nat) (l rest : list A) :
  List.length l = 1%nat -> take_out i l = Some rest -> rest = [].
Proof.
  destruct l as [|x [|y l]]; try discriminate. intros _.
  destruct i as [|j]; simpl; [congruence|].
  destruct j; discriminate.
Qed.

Lemma take_out_nil {A : Type} (i : nat) : take_out i (@nil A) = None.
Proof. now destruct i. Qed.

Lemma ui_step_one_at_a_time (production : bool) (e : Event) (w w' : t) :
  one_at_a_time w -> ui_step production e w = Some w' -> one_at_a_time w'.
Proof.
  unfold ui_step, one_at_a_time. intros Inv.
  destruct (enabled e (app w)) eqn:En; [|discriminate].
  destruct e as [ok|v|i| |i r|v|k|]; cbn [handle].
  - destruct (probing w); [|discriminate]. intros [= <-]. cbn.
    destruct ok; exact Inv.
  - intros [= <-]. exact Inv.
  - destruct (nth_error newsUrls i); [|discriminate].
    intros [= <-]. exact Inv.
  - cbn [enabled] in En. apply negb_true_iff, orb_false_iff in En.
    destruct En as [Hl Hu]. apply negb_false_iff in Hu.
    unfold scrapeNews_begin. rewrite Hu. cbn.
    intros [= <-]. cbn.
    destruct Inv as [[_ Hi]|[Hl' _]]; [|congruence].
    rewrite Hi. right. now split.
  - destruct (take_out i (inflight w)) as [rest|] eqn:Ht; [|discriminate].
    intros [= <-]. cbn. left. split; [reflexivity|].
    destruct Inv as [[_ Hi]|[_ Hlen]].
    + rewrite Hi, take_out_nil in Ht. discriminate.
    + now apply take_out_single with i (inflight w).
  - intros [= <-]. exact Inv.
  - intros [= <-]. exact Inv.
  - intros [= <-]. exact Inv.
Qed.

Lemma run_one_at_a_time (production : bool) (es : list Event) (w w' : t) :
  one_at_a_time w ->
  run (ui_step production) es w = Some w' -> one_at_a_time w'.
Proof.
  revert w. induction es as [|e es IH]; intros w Inv; cbn [run].
  - now intros [= <-].
  - destruct (ui_step production e w) as [w1|] eqn:Hs; [|discriminate].
    apply IH. now apply ui_step_one_at_a_time with production e w.
Qed.

Lemma start_one_at_a_time : one_at_a_time start.
Proof. left. now split. Qed.

(** No handler but the probe's writes [serverStatus]. *)
Lemma handle_serverStatus (production : bool) (e : Event) (w w' : t) :
  is_probe e = false -> handle production e w = Some w' ->
  serverStatus (app w') = serverStatus (app w) /\ probing w' = probing w.
Proof.
  destruct e as [ok|v|i| |i r|v|k|]; cbn [is_probe handle];
    try discriminate; intros _.
  - now intros [= <-].
  - destruct (nth_error newsUrls i); [|discriminate]. now intros [= <-].
  - pose proof (begin_serverStatus production (app w)) as Hb.
    destruct (scrapeNews_begin production (app w)) as [s' q].
    now intros [= <-].
  - destruct (take_out i (inflight w)); [|discriminate].
    intros [= <-]. cbn. split; [apply settle_serverStatus | reflexivity].
  - now intros [= <-].
  - now intros [= <-].
  - now intros [= <-].
Qed.

(** Once the probe has settled, the status is final. *)
Lemma handle_after_probe (production : bool) (e : Event) (w w' : t) :
  probing w = false -> handle production e w = Some w' ->
  serverStatus (app w') = serverStatus (app w) /\ probing w' = false.
Proof.
  intros Hp Hh. destruct (is_probe e) eqn:He.
  - destruct e; try discriminate. cbn [handle] in Hh.
    rewrite Hp in Hh. discriminate.
  - destruct (handle_serverStatus production e w w' He Hh) as [H1 H2].
    split; congruence.
Qed.

Lemma run_after_probe (production : bool) (es : list Event) (w w' : t) :
  probing w = false -> run (handle production) es w = Some w' ->
  serverStatus (app w') = serverStatus (app w) /\ probing w' = false.
Proof.
  revert w. induction es as [|e es IH]; intros w Hp; cbn [run].
  - intros [= <-]. now split.
  - destruct (handle production e w) as [w1|] eqn:Hs; [|discriminate].
    destruct (handle_after_probe production e w w1 Hp Hs) as [H1 H2].
    intros Hr. destruct (IH w1 H2 Hr) as [H3 H4]. split; congruence.
Qed.

Lemma handle_probe_pending (production : bool) (e : Event) (w w' : t) :
  probe_pending_iff_checking w -> handle production e w = Some w' ->
  probe_pending_iff_checking w'.
Proof.
  unfold probe_pending_iff_checking. intros Inv Hh.
  destruct (is_probe e) eqn:He.
  - destruct e as [ok| | | | | | |]; try discriminate.
    cbn [handle] in Hh. destruct (probing w); [|discriminate].
    injection Hh as <-. cbn. destruct ok; cbn; split; discriminate.
  - destruct (handle_serverStatus production e w w' He Hh) as [H1 H2].
    now rewrite H1, H2.
Qed.

Lemma run_probe_pending (production : bool) (es : list Event) (w w' : t) :
  probe_pending_iff_checking w ->
  run (handle production) es w = Some w' -> probe_pending_iff_checking w'.
Proof.
  revert w. induction es as [|e es IH]; intros w Inv; cbn [run].
  - now intros [= <-].
  - destruct (handle production e w) as [w1|] eqn:Hs; [|discriminate].
    apply IH. now apply handle_probe_pending with production e w.
Qed.

(** A run the page admits is a run. *)
Lemma ui_run_is_run (production : bool) (es : list Event) (w w' : t) :
  run (ui_step production) es w = Some w' ->
  run (handle production) es w = Some w'.
Proof.
  revert w. induction es as [|e es IH]; intros w; cbn [run]; [trivial|].
  unfold ui_step at 1. destruct (enabled e (app w)); [|discriminate].
  destruct (handle production e w); [apply IH | discriminate].
Qed.
End SessionFacts.

(** [scrapeNews] itself carries no request token.  Were the handler
    called a second time while a request is out, which the page does
    not let happen (see below), the late response to the first call
    would replace what the second produced. *)
Lemma stale_response_overwrites :
  option_map (fun w => request_state (Session.app w))
    (Session.run (Session.handle false)
       [ Session.ChangeUrl "https://a.example/"; Session.ClickScrape;
         Session.ChangeUrl "https://b.example/"; Session.ClickScrape;
         Session.ScrapeSettled 1 (ok_with [item "from B" "b" "2024-03-01"]);
         Session.ScrapeSettled 0 (ok_with [item "from A" "a" "2024-01-10"]) ]
       Session.start)
    = Some (false, [item "from A" "a" "2024-01-10"], "") /\
  request_state
    (scrapeNews false (fun _ => ok_with [item "from B" "b" "2024-03-01"])
       (setUrl "https://b.example/" initial))
    = (false, [item "from B" "b" "2024-03-01"], "").
Proof. split; reflexivity. Qed.

(** The page refuses that second call: while the first request is
    out, the button and the URL field are disabled. *)
Lemma page_refuses_second_call :
  Session.run (Session.ui_step false)
    [ Session.ChangeUrl "https://a.example/"; Session.ClickScrape;
      Session.ClickScrape ] Session.start = None /\
  Session.run (Session.ui_step false)
    [ Session.ChangeUrl "https://a.example/"; Session.ClickScrape;
      Session.ChangeUrl "https://b.example/" ] Session.start = None.
Proof. split; reflexivity. Qed.

(** C8.  A failed probe sets the status to [offline] and the error
    text to the offline message.  The status is out of reach of
    [scrapeNews]: a later call, however it settles, leaves it
    [offline] (the error text it does clear); in a run, once the probe
    has settled the status never changes again, and it is [checking]
    exactly as long as the probe is out. *)
Theorem offline_status_is_sticky (production : bool) (s : AppState) :
  serverStatus (checkServer_settle false s) = offline /\
  error (checkServer_settle false s) =
    "Server is offline. Please make sure the server is running on port 5000." /\
  (forall net,
     serverStatus (scrapeNews production net (checkServer_settle false s))
       = offline) /\
  (forall es w w',
     Session.probing w = false ->
     Session.run (Session.handle production) es w = Some w' ->
     serverStatus (Session.app w') = serverStatus (Session.app w)) /\
  (forall es w,
     Session.run (Session.handle production) es Session.start = Some w ->
     (Session.probing w = true <-> serverStatus (Session.app w) = checking)).
Proof.
  split; [reflexivity|]. split; [reflexivity|]. split; [|split].
  - intros net. unfold scrapeNews.
    pose proof (begin_serverStatus production (checkServer_settle false s)) as Hb.
    destruct (scrapeNews_begin production (checkServer_settle false s))
      as [s' [q|]]; simpl in Hb.
    + now rewrite settle_serverStatus.
    + exact Hb.
  - intros es w w' Hp Hr.
    now destruct (SessionFacts.run_after_probe production es w w' Hp Hr).
  - intros es w Hr.
    apply (SessionFacts.run_probe_pending production es Session.start w);
      [|exact Hr].
    split; reflexivity.
Qed.

(** The offline message itself does not outlive the next call: the
    call clears the error text, while the status stays. *)
Lemma offline_message_cleared_status_kept :
  request_state
    (scrapeNews false (fun _ => ok_with [item "a1" "x" "2024-01-10"])
       (setUrl "https://mb.com.ph/" (checkServer_settle false initial)))
    = (false, [item "a1" "x" "2024-01-10"], "") /\
  serverStatus
    (scrapeNews false (fun _ => ok_with [item "a1" "x" "2024-01-10"])
       (setUrl "https://mb.com.ph/" (checkServer_settle false initial)))
    = offline.
Proof. split; reflexivity. Qed.

Lemma handle_apart_from_status (production : bool) (e : Session.Event)
    (w1 w2 : Session.t) :
  Session.is_probe e = false ->
  apart_from_status w1 = apart_from_status w2 ->
  option_map apart_from_status (Session.handle production e w1) =
  option_map apart_from_status (Session.handle production e w2).
Proof.
  unfold apart_from_status. intros He Heq.
  destruct w1 as [[u1 n1 l1 f1 k1 e1 t1] i1 p1].
  destruct w2 as [[u2 n2 l2 f2 k2 e2 t2] i2 p2].
  cbn in Heq. injection Heq as -> -> -> -> -> -> ->.
  destruct e as [ok|v|i| |i r|v|k|]; try discriminate;
    cbn [Session.handle Session.app Session.inflight Session.probing].
  - reflexivity.
  - destruct (nth_error newsUrls i); reflexivity.
  - unfold scrapeNews_begin. cbn. destruct (JS.truthy u2); reflexivity.
  - destruct (Session.take_out i i2); [|reflexivity].
    destruct r as [[m|d]|e]; cbn; unfold scrapeNews_settle, and_then;
      try destruct (has_news d); reflexivity.
  - reflexivity.
  - reflexivity.
  - reflexivity.
Qed.

Lemma run_apart_from_status (production : bool) (es : list Session.Event) :
  forallb (fun e => negb (Session.is_probe e)) es = true ->
  forall w1 w2,
  apart_from_status w1 = apart_from_status w2 ->
  option_map apart_from_status (Session.run (Session.handle production) es w1) =
  option_map apart_from_status (Session.run (Session.handle production) es w2).
Proof.
  induction es as [|e es IH]; intros Hes w1 w2 Heq; cbn [Session.run].
  - cbn. now rewrite Heq.
  - cbn [forallb] in Hes. apply andb_true_iff in Hes.
    destruct Hes as [He Hes]. apply negb_true_iff in He.
    pose proof (handle_apart_from_status production e w1 w2 He Heq) as Hh.
    destruct (Session.handle production e w1) as [w1'|],
             (Session.handle production e w2) as [w2'|];
      cbn in Hh; try discriminate; [|reflexivity].
    apply IH; [exact Hes | congruence].
Qed.

(* ================================================================== *)
(** ** The derived view *)

Lemma StronglySorted_weaken {A : Type} (R S : A -> A -> Prop) (l : list A) :
  (forall x y, R x y -> S x y) -> StronglySorted R l -> StronglySorted S l.
Proof.
  intros HRS. induction 1 as [|x l Hs IH Hall]; constructor;
    [exact IH | revert Hall; apply Forall_impl, HRS].
Qed.

Lemma deriveView_perm (E : JS.Engine) (l : list NewsItem.t) (kw : string)
    (k : SortKey) :
  Permutation (deriveView E l kw k) (filter (keep E kw) l).
Proof. apply sort_perm. Qed.

(** The view depends on nothing but its three arguments and leaves
    the result set alone: it is a function. *)
Lemma deriveView_In (E : JS.Engine) (l : list NewsItem.t) (kw : string)
    (k : SortKey) (a : NewsItem.t) :
  In a (deriveView E l kw k) <-> In a l /\ keep E kw a = true.
Proof. unfold deriveView. now rewrite sort_In, filter_In. Qed.

(** *** Sorting by title *)

Lemma title_consistent (E : JS.Engine) :
  Collation (JS.localeCompare E) -> Consistent (comparefn E SortTitle).
Proof.
  intros [Hanti Htrans]. constructor; cbn [comparefn JS.after].
  - intros x y H. apply Z.ltb_lt in H. apply Z.ltb_ge.
    apply Z.lt_le_incl. now apply Hanti.
  - intros x y z H. apply Z.ltb_lt in H. rewrite !Z.ltb_lt.
    destruct (Z_lt_le_dec 0 (JS.localeCompare E (NewsItem.title x) (NewsItem.title y)))
      as [Hxy|Hxy]; [now left|].
    destruct (Z_lt_le_dec 0 (JS.localeCompare E (NewsItem.title y) (NewsItem.title z)))
      as [Hyz|Hyz]; [now right|].
    pose proof (Htrans _ _ _ Hxy Hyz). lia.
Qed.

(** C9.  With [sortBy = 'title'] the view lists the retained articles
    in ascending order of [localeCompare] on their titles, for every
    collation the engine may supply; a collation that ranks "apple"
    before "Banana" before "Cherry" turns the titles Banana, apple,
    Cherry into apple, Banana, Cherry. *)
Theorem title_sort_ascending (E : JS.Engine) :
  Collation (JS.localeCompare E) ->
  (forall l kw,
     StronglySorted
       (fun a b => JS.localeCompare E (NewsItem.title a) (NewsItem.title b) <= 0)
       (deriveView E l kw SortTitle) /\
     Permutation (deriveView E l kw SortTitle) (filter (keep E kw) l)) /\
  (JS.localeCompare E "apple" "Banana" < 0 ->
   JS.localeCompare E "Banana" "Cherry" < 0 ->
   map NewsItem.title
     (deriveView E
        [ item "Banana" "x" "2024-01-10"; item "apple" "y" "2024-03-01";
          item "Cherry" "z" "2024-02-15" ] "" SortTitle)
   = ["apple"; "Banana"; "Cherry"]).
Proof.
  intros HC. split.
  - intros l kw. split; [|apply deriveView_perm].
    eapply StronglySorted_weaken;
      [|apply sort_sorted, title_consistent, HC].
    unfold precedes. cbn [comparefn JS.after]. intros x y H.
    now apply Z.ltb_ge.
  - intros Hab Hbc. destruct HC as [Hanti Htrans].
    assert (Hac : JS.localeCompare E "apple" "Cherry" <= 0)
      by (apply Htrans with "Banana"; lia).
    assert (Hba : 0 < JS.localeCompare E "Banana" "apple")
      by now apply Hanti.
    unfold deriveView.
    cbn [filter keep String.eqb orb JS.sort fold_right JS.insert comparefn
         item NewsItem.title JS.after].
    apply Z.ltb_ge in Hac. rewrite Hac.
    cbn [JS.insert comparefn NewsItem.title JS.after item].
    apply Z.ltb_lt in Hba. rewrite Hba.
    cbn [JS.insert comparefn NewsItem.title JS.after item].
    assert (Hbc' : (0 <? JS.localeCompare E "Banana" "Cherry") = false)
      by (apply Z.ltb_ge; lia).
    rewrite Hbc'. reflexivity.
Qed.

(** The sample collation is one. *)
Lemma lex_antisym (a b : list Z) : lex a b < 0 <-> 0 < lex b a.
Proof.
  revert b. induction a as [|x a IH]; intros [|y b]; cbn [lex]; try lia.
  destruct (Z.eqb_spec x y) as [->|Hne].
  - rewrite Z.eqb_refl. apply IH.
  - destruct (Z.eqb_spec y x); lia.
Qed.

Lemma lex_trans (a b c : list Z) :
  lex a b <= 0 -> lex b c <= 0 -> lex a c <= 0.
Proof.
  revert b c. induction a as [|x a IH]; intros [|y b] [|z c]; cbn [lex];
    try lia.
  destruct (Z.eqb_spec x y) as [->|Hxy], (Z.eqb_spec y z) as [->|Hyz].
  - apply IH.
  - lia.
  - destruct (Z.eqb_spec x z); lia.
  - destruct (Z.eqb_spec x z); lia.
Qed.

Lemma alphabetic_collation : Collation alphabetic.
Proof.
  constructor; unfold alphabetic; intros.
  - apply lex_antisym.
  - eapply lex_trans; eassumption.
Qed.

Lemma title_sort_ascending_witness :
  Collation (JS.localeCompare plain_engine) /\
  JS.localeCompare plain_engine "apple" "Banana" < 0 /\
  JS.localeCompare plain_engine "Banana" "Cherry" < 0 /\
  map NewsItem.title
    (deriveView plain_engine
       [ item "Banana" "x" "2024-01-10"; item "apple" "y" "2024-03-01";
         item "Cherry" "z" "2024-02-15" ] "" SortTitle)
  = ["apple"; "Banana"; "Cherry"].
Proof.
  split; [exact alphabetic_collation|].
  split; [reflexivity|]. split; [reflexivity|].
  apply (title_sort_ascending plain_engine alphabetic_collation);
    reflexivity.
Defined.

(** *** Sorting by date *)

Lemma comparefn_date_parses (E : JS.Engine) (a b : NewsItem.t) :
  parses E a -> parses E b -> comparefn E SortDate a b = by_time E a b.
Proof.
  unfold parses, by_time, time_of. cbn [comparefn].
  destruct (JS.getTime E (NewsItem.date a)), (JS.getTime E (NewsItem.date b));
    intros Ha Hb; try reflexivity; now contradiction.
Qed.

Lemma by_time_consistent (E : JS.Engine) : Consistent (by_time E).
Proof.
  constructor; unfold by_time; cbn [JS.after]; intros.
  - apply Z.ltb_ge. apply Z.ltb_lt in H. lia.
  - rewrite !Z.ltb_lt. apply Z.ltb_lt in H. lia.
Qed.

Lemma date_sort_by_time (E : JS.Engine) (l : list NewsItem.t) (kw : string) :
  Forall (parses E) l ->
  deriveView E l kw SortDate = JS.sort (by_time E) (filter (keep E kw) l).
Proof.
  intros Hall. unfold deriveView. apply sort_ext.
  intros x y Hx Hy. rewrite Forall_forall in Hall.
  apply filter_In in Hx, Hy.
  rewrite comparefn_date_parses; [reflexivity | apply Hall; tauto ..].
Qed.

(** When every date of the result set parses, the view is in
    descending order of time value, items of equal time keeping the
    order they had. *)
Lemma date_sort_descending (E : JS.Engine) (l : list NewsItem.t) (kw : string) :
  Forall (parses E) l ->
  StronglySorted (fun a b => time_of E b <= time_of E a)
    (deriveView E l kw SortDate) /\
  Permutation (deriveView E l kw SortDate) (filter (keep E kw) l) /\
  (forall t,
     filter (fun a => time_of E a =? t) (deriveView E l kw SortDate) =
     filter (fun a => time_of E a =? t) (filter (keep E kw) l)).
Proof.
  intros Hall. split; [|split].
  - rewrite date_sort_by_time by exact Hall.
    eapply StronglySorted_weaken;
      [|apply sort_sorted, by_time_consistent].
    unfold precedes, by_time. cbn [JS.after]. intros x y H.
    apply Z.ltb_ge in H. lia.
  - apply deriveView_perm.
  - intros t. rewrite date_sort_by_time by exact Hall.
    set (m := filter (keep E kw) l).
    enough (Hgen : forall m',
      filter (fun a => time_of E a =? t) (JS.sort (by_time E) m') =
      filter (fun a => time_of E a =? t) m') by apply Hgen.
    intros m'.
    destruct (filter (fun a => time_of E a =? t) m') as [|w ws] eqn:Hw.
    + destruct (filter (fun a => time_of E a =? t) (JS.sort (by_time E) m'))
        as [|v vs] eqn:Hv; [reflexivity|].
      assert (Hin : In v (filter (fun a => time_of E a =? t) m')).
      { assert (Hin' : In v (v :: vs)) by now left.
        rewrite <- Hv in Hin'. apply filter_In in Hin'.
        apply filter_In. split; [now apply (sort_In (by_time E)) | tauto]. }
      rewrite Hw in Hin. destruct Hin.
    + assert (Hwt : time_of E w = t).
      { assert (Hin : In w (w :: ws)) by now left.
        rewrite <- Hw in Hin. apply filter_In in Hin.
        now apply Z.eqb_eq. }
      rewrite <- Hw.
      assert (Hext : forall a,
        (time_of E a =? t) = tied (by_time E) w a).
      { intros a. unfold tied, by_time. cbn [JS.after]. subst t.
        destruct (Z.eqb_spec (time_of E a) (time_of E w)) as [He|He].
        - rewrite He, Z.sub_diag. reflexivity.
        - symmetry. apply andb_false_iff.
          rewrite !negb_false_iff, !Z.ltb_lt. lia. }
      rewrite !(filter_ext _ _ Hext).
      apply sort_stable, by_time_consistent.
Qed.

Lemma getTime_2024_01_10 (E : JS.Engine) :
  JS.getTime E "2024-01-10" = JS.Num 1704844800000.
Proof. reflexivity. Qed.

Lemma getTime_2024_02_15 (E : JS.Engine) :
  JS.getTime E "2024-02-15" = JS.Num 1707955200000.
Proof. reflexivity. Qed.

Lemma getTime_2024_03_01 (E : JS.Engine) :
  JS.getTime E "2024-03-01" = JS.Num 1709251200000.
Proof. reflexivity. Qed.

(** The dates 2024-01-10, 2024-03-01, 2024-02-15 come out most recent
    first, on every engine. *)
Lemma date_sort_example (E : JS.Engine) :
  map NewsItem.date
    (deriveView E
       [ item "a" "x" "2024-01-10"; item "b" "y" "2024-03-01";
         item "c" "z" "2024-02-15" ] "" SortDate)
  = ["2024-03-01"; "2024-02-15"; "2024-01-10"].
Proof.
  vm_compute. reflexivity.
Qed.

(** C3, where the code parts from it.  On an engine that does not
    recognise "Unknown" as a date, every comparison with that item
    answers [NaN], which the sort reads as "leave as is".  The item is
    not treated as earliest: put first it stays first, put last it
    stays last.  The comparator is then not a consistent one, so
    ECMAScript leaves the order to the engine; under the sort modelled
    here the dated items on either side of the undated one are not
    even brought into descending order. *)
Theorem unparsable_date_keeps_its_place (E : JS.Engine) :
  JS.getTime E "Unknown" = JS.NaN ->
  map NewsItem.date
    (deriveView E
       [ item "b" "y" "Unknown"; item "a" "x" "2024-01-10" ] "" SortDate)
  = ["Unknown"; "2024-01-10"] /\
  map NewsItem.date
    (deriveView E
       [ item "a" "x" "2024-01-10"; item "b" "y" "Unknown" ] "" SortDate)
  = ["2024-01-10"; "Unknown"] /\
  map NewsItem.date
    (deriveView E
       [ item "a" "x" "2024-01-10"; item "b" "y" "Unknown";
         item "c" "z" "2024-03-01" ] "" SortDate)
  = ["2024-01-10"; "Unknown"; "2024-03-01"] /\
  ~ Consistent (comparefn E SortDate).
Proof.
  intros H. unfold deriveView.
  repeat (progress
            cbn [filter keep String.eqb orb JS.sort fold_right JS.insert
                 comparefn item NewsItem.date JS.sub JS.after map]
          || rewrite getTime_2024_01_10 || rewrite getTime_2024_03_01
          || rewrite H).
  repeat (split; [reflexivity|]).
  intros [_ Hneg].
  specialize (Hneg (item "a" "x" "2024-01-10") (item "b" "y" "Unknown")
                   (item "c" "z" "2024-03-01")).
  cbn [comparefn item NewsItem.date] in Hneg.
  rewrite getTime_2024_01_10, getTime_2024_03_01, H in Hneg.
  destruct (Hneg eq_refl); discriminate.
Qed.

Lemma unparsable_date_keeps_its_place_witness :
  JS.getTime plain_engine "Unknown" = JS.NaN /\
  map NewsItem.date
    (deriveView plain_engine
       [ item "b" "y" "Unknown"; item "a" "x" "2024-01-10" ] "" SortDate)
  = ["Unknown"; "2024-01-10"].
Proof.
  split; [reflexivity|].
  apply (unparsable_date_keeps_its_place plain_engine). reflexivity.
Defined.

(* ================================================================== *)
(** ** More on the derived view *)

Lemma string_app_assoc (a b c : string) :
  ((a ++ b) ++ c)%string = (a ++ b ++ c)%string.
Proof. induction a as [|x a IH]; simpl; [reflexivity | now rewrite IH]. Qed.

Lemma string_app_empty (a b : string) :
  (a ++ b)%string = "" -> a = "" /\ b = "".
Proof. destruct a; simpl; [now split | discriminate]. Qed.

Lemma fold_ascii_app (a b : string) :
  JS.fold_ascii (a ++ b) = (JS.fold_ascii a ++ JS.fold_ascii b)%string.
Proof. induction a as [|x a IH]; simpl; [reflexivity | now rewrite IH]. Qed.

Lemma filter_all {A : Type} (f : A -> bool) (l : list A) :
  Forall (fun a => f a = true) l -> filter f l = l.
Proof.
  induction 1 as [|a l Ha _ IH]; simpl; [reflexivity|].
  now rewrite Ha, IH.
Qed.

Lemma filter_length_le {A : Type} (f : A -> bool) (l : list A) :
  (List.length (filter f l) <= List.length l)%nat.
Proof.
  induction l as [|a l IH]; simpl; [lia|].
  destruct (f a); simpl; lia.
Qed.

(** Sorting what is already in order changes nothing. *)
Lemma sort_sorted_id {A : Type} (cmp : A -> A -> JS.number) (l : list A) :
  StronglySorted (precedes cmp) l -> JS.sort cmp l = l.
Proof.
  induction 1 as [|x l Hs IH Hall]; [reflexivity|].
  cbn [JS.sort fold_right]. fold (JS.sort cmp l). rewrite IH.
  destruct l as [|y l]; [reflexivity|].
  cbn [JS.insert]. apply Forall_inv in Hall. unfold precedes in Hall.
  now rewrite Hall.
Qed.

(** The view as a sort by a consistent comparator, whenever the
    result set is [orderly]. *)
Lemma orderly_view (E : JS.Engine) (k : SortKey) (l : list NewsItem.t)
    (kw : string) :
  orderly E k l ->
  exists cmp, Consistent cmp /\
    forall m, incl m l -> deriveView E m kw k = JS.sort cmp (filter (keep E kw) m).
Proof.
  destruct k; cbn [orderly]; intros H.
  - exists (by_time E). split; [apply by_time_consistent|].
    intros m Hm. apply date_sort_by_time.
    rewrite Forall_forall in *. auto.
  - exists (comparefn E SortTitle). split; [now apply title_consistent|].
    reflexivity.
Qed.

(** Changing the sort key rearranges the cards and nothing more: the
    two views hold the same articles the same number of times.  A view
    never has more cards than the result set has articles, and with
    the empty keyword it has them all. *)
Theorem view_rearranges_retained (E : JS.Engine) (s : AppState) :
  Permutation (filteredAndSortedNews E (setSortBy SortDate s))
              (filteredAndSortedNews E (setSortBy SortTitle s)) /\
  (List.length (filteredAndSortedNews E s) <= List.length (news s))%nat /\
  Permutation (filteredAndSortedNews E (setFilterKeyword "" s)) (news s).
Proof.
  unfold filteredAndSortedNews. cbn [news filterKeyword sortBy setSortBy
                                     setFilterKeyword].
  split; [|split].
  - eapply perm_trans; [apply deriveView_perm|].
    apply Permutation_sym, deriveView_perm.
  - rewrite (Permutation_length (deriveView_perm E _ _ _)).
    apply filter_length_le.
  - eapply perm_trans; [apply deriveView_perm|].
    rewrite filter_all; [apply Permutation_refl|].
    apply Forall_forall. intros a _. reflexivity.
Qed.

(** With [sortBy = 'date'] and a result set whose dates all parse,
    the cards run from the most recent to the oldest, and articles of
    the same time value stay in the order the scraper returned them. *)
Theorem date_view_most_recent_first (E : JS.Engine) (s : AppState) :
  sortBy s = SortDate ->
  Forall (parses E) (news s) ->
  StronglySorted (fun a b => time_of E b <= time_of E a)
    (filteredAndSortedNews E s) /\
  (forall t,
     filter (fun a => time_of E a =? t) (filteredAndSortedNews E s) =
     filter (fun a => time_of E a =? t)
       (filter (keep E (filterKeyword s)) (news s))).
Proof.
  intros Hk Hall. unfold filteredAndSortedNews. rewrite Hk.
  destruct (date_sort_descending E (news s) (filterKeyword s) Hall)
    as [H1 [_ H3]].
  now split.
Qed.

Lemma date_view_most_recent_first_witness :
  sortBy (setNews [ item "a" "x" "2024-01-10"; item "b" "y" "2024-03-01" ]
            initial) = SortDate /\
  Forall (parses plain_engine)
    (news (setNews [ item "a" "x" "2024-01-10"; item "b" "y" "2024-03-01" ]
             initial)) /\
  StronglySorted (fun a b => time_of plain_engine b <= time_of plain_engine a)
    (filteredAndSortedNews plain_engine
       (setNews [ item "a" "x" "2024-01-10"; item "b" "y" "2024-03-01" ]
          initial)).
Proof.
  assert (H : Forall (parses plain_engine)
                [ item "a" "x" "2024-01-10"; item "b" "y" "2024-03-01" ])
    by (repeat constructor; discriminate).
  split; [reflexivity|]. split; [exact H|].
  apply (date_view_most_recent_first plain_engine
           (setNews [ item "a" "x" "2024-01-10"; item "b" "y" "2024-03-01" ]
              initial) eq_refl H).
Defined.

(** With [sortBy = 'title'], articles whose titles the collation ranks
    equal stay in the order the scraper returned them. *)
Theorem title_ties_keep_order (E : JS.Engine) (l : list NewsItem.t)
    (kw : string) (x : NewsItem.t) :
  Collation (JS.localeCompare E) ->
  filter (same_rank E x) (deriveView E l kw SortTitle) =
  filter (same_rank E x) (filter (keep E kw) l).
Proof.
  intros HC.
  assert (Hext : forall a, same_rank E x a = tied (comparefn E SortTitle) x a).
  { intros a. unfold same_rank, tied. cbn [comparefn JS.after].
    now rewrite !Z.leb_antisym. }
  rewrite !(filter_ext _ _ Hext).
  apply sort_stable, title_consistent, HC.
Qed.

Lemma title_ties_keep_order_witness :
  Collation (JS.localeCompare plain_engine) /\
  filter (same_rank plain_engine (item "News" "x" "2024-01-10"))
    (deriveView plain_engine
       [ item "News" "first" "2024-01-10"; item "Alpha" "y" "2024-01-10";
         item "News" "second" "2024-03-01" ] "" SortTitle) =
  filter (same_rank plain_engine (item "News" "x" "2024-01-10"))
    (filter (keep plain_engine "")
       [ item "News" "first" "2024-01-10"; item "Alpha" "y" "2024-01-10";
         item "News" "second" "2024-03-01" ]).
Proof.
  split; [exact alphabetic_collation|].
  apply (title_ties_keep_order plain_engine _ "" _ alphabetic_collation).
Defined.

(** *** Keyword matching *)

Lemma nat_lower_ascii (c : ascii) :
  nat_of_ascii (JS.lower_ascii c) =
  if is_upper c then (nat_of_ascii c + 32)%nat else nat_of_ascii c.
Proof.
  unfold JS.lower_ascii, is_upper.
  destruct (Nat.leb 65 (nat_of_ascii c) && Nat.leb (nat_of_ascii c) 90)%bool
    eqn:H; [|reflexivity].
  apply andb_true_iff in H. destruct H as [_ H]. apply Nat.leb_le in H.
  apply nat_ascii_embedding. lia.
Qed.

Lemma nat_of_ascii_inj (c d : ascii) :
  nat_of_ascii c = nat_of_ascii d -> c = d.
Proof.
  intros H. rewrite <- (ascii_nat_embedding c), <- (ascii_nat_embedding d).
  now rewrite H.
Qed.

Lemma is_upper_true (c : ascii) :
  is_upper c = true <-> (65 <= nat_of_ascii c <= 90)%nat.
Proof. unfold is_upper. rewrite andb_true_iff, !Nat.leb_le. tauto. Qed.

Lemma is_upper_false (c : ascii) :
  is_upper c = false <-> (nat_of_ascii c < 65 \/ 90 < nat_of_ascii c)%nat.
Proof. unfold is_upper. rewrite andb_false_iff, !Nat.leb_gt. tauto. Qed.

Lemma lower_ascii_same_letter (c d : ascii) :
  JS.lower_ascii c = JS.lower_ascii d <-> same_letter c d = true.
Proof.
  unfold same_letter. rewrite !orb_true_iff, !andb_true_iff, !Nat.eqb_eq.
  rewrite Ascii.eqb_eq. split.
  - intros H. apply (f_equal nat_of_ascii) in H.
    rewrite !nat_lower_ascii in H.
    destruct (is_upper c) eqn:Hc, (is_upper d) eqn:Hd.
    + left; left. apply nat_of_ascii_inj. lia.
    + left; right. split; [reflexivity | lia].
    + right. split; [reflexivity | lia].
    + left; left. now apply nat_of_ascii_inj.
  - intros H. apply nat_of_ascii_inj. rewrite !nat_lower_ascii.
    destruct H as [[-> | [Hc H]] | [Hd H]]; [reflexivity | |].
    + rewrite Hc. apply is_upper_true in Hc.
      destruct (is_upper d) eqn:Hd; [|now rewrite H].
      apply is_upper_true in Hd. lia.
    + rewrite Hd. apply is_upper_true in Hd.
      destruct (is_upper c) eqn:Hc; [|now rewrite H].
      apply is_upper_true in Hc. lia.
Qed.

(** Two strings have the same ASCII fold exactly when they are the
    same but for the case of their letters. *)
Lemma fold_ascii_same (a b : string) :
  JS.fold_ascii a = JS.fold_ascii b <-> same_ignoring_case a b = true.
Proof.
  revert b. induction a as [|c a IH]; intros [|d b]; cbn;
    try (split; [discriminate | discriminate]); [tauto|].
  rewrite andb_true_iff, <- lower_ascii_same_letter, <- IH. split.
  - intros H. injection H as H1 H2. now split.
  - intros [H1 H2]. now rewrite H1, H2.
Qed.

(** A split of the fold comes from a split of the string. *)
Lemma fold_ascii_split (s p q : string) :
  JS.fold_ascii s = (p ++ q)%string ->
  exists a b, s = (a ++ b)%string /\ JS.fold_ascii a = p /\ JS.fold_ascii b = q.
Proof.
  revert s. induction p as [|c p IH]; intros s H.
  - exists "", s. now repeat split.
  - destruct s as [|d s]; [discriminate|]. cbn in H. injection H as Hc Hs.
    destruct (IH s Hs) as [a [b [-> [Ha Hb]]]].
    exists (String d a), b. cbn. now rewrite Hc, Ha.
Qed.

Lemma occurs_fold_ascii (kw s : string) :
  occurs (JS.fold_ascii kw) (JS.fold_ascii s) <-> occurs_ignoring_case kw s.
Proof.
  split.
  - intros [p [q H]].
    destruct (fold_ascii_split _ _ _ H) as [pre [rest [-> [Hp Hr]]]].
    destruct (fold_ascii_split _ _ _ Hr) as [t [post [-> [Ht Hq]]]].
    exists pre, t, post. split; [reflexivity | now apply fold_ascii_same].
  - intros [pre [t [post [-> Ht]]]]. apply fold_ascii_same in Ht.
    exists (JS.fold_ascii pre), (JS.fold_ascii post).
    now rewrite !fold_ascii_app, Ht.
Qed.

Lemma is_ascii_app (a b : string) :
  is_ascii (a ++ b) = (is_ascii a && is_ascii b)%bool.
Proof.
  induction a as [|c a IH]; cbn; [reflexivity|].
  now rewrite IH, andb_assoc.
Qed.

(** The filter predicate, as the code computes it. *)
Lemma keep_spec (E : JS.Engine) (kw : string) (a : NewsItem.t) :
  keep E kw a = true <->
  kw = "" \/
  occurs (JS.toLowerCase E kw) (JS.toLowerCase E (NewsItem.title a)) \/
  occurs (JS.toLowerCase E kw) (JS.toLowerCase E (NewsItem.author a)).
Proof.
  unfold keep, occurs.
  now rewrite !orb_true_iff, String.eqb_eq, !includes_spec, or_assoc.
Qed.

(** On ASCII text every engine's predicate is the plain one. *)
Lemma keep_ascii (E : JS.Engine) (kw : string) (a : NewsItem.t) :
  folds_ascii E -> is_ascii kw = true -> ascii_item a = true ->
  keep E kw a = keep plain_engine kw a.
Proof.
  intros HE Hk Ha. unfold ascii_item in Ha. apply andb_true_iff in Ha.
  destruct Ha as [Ht Hu]. unfold keep.
  rewrite (HE _ Hk), (HE _ Ht), (HE _ Hu). reflexivity.
Qed.

Lemma lower_ascii_other (c : ascii) :
  ascii_letter (nat_of_ascii c) = false -> JS.lower_ascii c = c.
Proof.
  unfold ascii_letter, JS.lower_ascii. intros H.
  apply orb_false_iff in H. destruct H as [H _]. now rewrite H.
Qed.

Lemma greek_lower_ascii (b : bool) (l : list ascii) :
  forallb (fun c => Nat.ltb (nat_of_ascii c) 128) l = true ->
  greek_lower b l = map JS.lower_ascii l.
Proof.
  revert b. induction l as [|c l IH]; intros b H; [reflexivity|].
  cbn [forallb] in H. apply andb_true_iff in H. destruct H as [Hc Hl].
  apply Nat.ltb_lt in Hc. cbn [greek_lower map].
  destruct (ascii_letter (nat_of_ascii c)) eqn:Ha.
  - now rewrite IH.
  - rewrite (lower_ascii_other c Ha).
    destruct l as [|d l']; [reflexivity|].
    assert (Hg : greek_letter (nat_of_ascii c) (nat_of_ascii d) = false).
    { unfold greek_letter.
      assert (H6 : Nat.eqb (nat_of_ascii c) 206 = false)
        by (apply Nat.eqb_neq; lia).
      assert (H7 : Nat.eqb (nat_of_ascii c) 207 = false)
        by (apply Nat.eqb_neq; lia).
      now rewrite H6, H7. }
    rewrite Hg. now rewrite IH.
Qed.

Lemma is_ascii_list (s : string) :
  is_ascii s =
  forallb (fun c => Nat.ltb (nat_of_ascii c) 128) (list_ascii_of_string s).
Proof. induction s as [|c s IH]; cbn; [reflexivity | now rewrite IH]. Qed.

Lemma fold_ascii_list (s : string) :
  string_of_list_ascii (map JS.lower_ascii (list_ascii_of_string s)) =
  JS.fold_ascii s.
Proof. induction s as [|c s IH]; cbn; [reflexivity | now rewrite IH]. Qed.

(** The sample engine with the Greek letters folds ASCII text as
    every engine does. *)
Lemma folds_ascii_final_sigma : folds_ascii final_sigma_engine.
Proof.
  intros s Hs. cbn [JS.toLowerCase final_sigma_engine].
  rewrite is_ascii_list in Hs.
  now rewrite (greek_lower_ascii false _ Hs), fold_ascii_list.
Qed.

Lemma folds_ascii_plain : folds_ascii plain_engine.
Proof. intros s _. reflexivity. Qed.

Lemma keep_ascii_spec (E : JS.Engine) (kw : string) (a : NewsItem.t) :
  folds_ascii E -> is_ascii kw = true -> ascii_item a = true ->
  (keep E kw a = true <->
   kw = "" \/ occurs_ignoring_case kw (NewsItem.title a)
           \/ occurs_ignoring_case kw (NewsItem.author a)).
Proof.
  intros HE Hk Ha. rewrite (keep_ascii E kw a HE Hk Ha), keep_spec.
  cbn [JS.toLowerCase plain_engine]. now rewrite !occurs_fold_ascii.
Qed.

(** C6 as stated fails.  Lower-casing looks at the context: a capital
    sigma that ends a word becomes the final sigma, one that stands
    alone the ordinary one.  So the title [ΑΣ] contains the keyword
    [Σ] verbatim, yet its lower-case form does not contain the
    keyword's, and the article is not retained. *)
Lemma final_sigma_hides_verbatim_match :
  JS.toLowerCase final_sigma_engine "ΑΣ" = "ας" /\
  JS.toLowerCase final_sigma_engine "Σ" = "σ" /\
  In (item "ΑΣ" "Ana" "2024-01-10") [ item "ΑΣ" "Ana" "2024-01-10" ] /\
  occurs_ignoring_case "Σ" (NewsItem.title (item "ΑΣ" "Ana" "2024-01-10")) /\
  ~ In (item "ΑΣ" "Ana" "2024-01-10")
       (deriveView final_sigma_engine [ item "ΑΣ" "Ana" "2024-01-10" ]
          "Σ" SortDate).
Proof.
  split; [reflexivity|]. split; [reflexivity|]. split; [now left|]. split.
  - exists "Α", "Σ", "". split; reflexivity.
  - intros H. apply deriveView_In in H. destruct H as [_ H].
    vm_compute in H. discriminate H.
Qed.

(** C6, as amended.  An article of the result set is in the view
    exactly when the keyword is empty, or the lower-case form of the
    keyword is a contiguous part of the lower-case form of the title,
    or of the author.  On ASCII text, which every engine folds letter
    by letter, that is: the keyword occurs in the title or in the
    author but for the case of its letters; with the keyword "tech",
    "New Tech Launch" and the author "Techie Reporter" are retained,
    "Sports Update" by "Juan" is not. *)
Theorem view_retains_iff_keyword_matches (E : JS.Engine) (k : SortKey) :
  folds_ascii E ->
  (forall l kw a,
     In a (deriveView E l kw k) <->
     In a l /\
     (kw = "" \/
      occurs (JS.toLowerCase E kw) (JS.toLowerCase E (NewsItem.title a)) \/
      occurs (JS.toLowerCase E kw) (JS.toLowerCase E (NewsItem.author a)))) /\
  (forall l kw a, is_ascii kw = true -> ascii_item a = true ->
     (In a (deriveView E l kw k) <->
      In a l /\ (kw = "" \/ occurs_ignoring_case kw (NewsItem.title a)
                         \/ occurs_ignoring_case kw (NewsItem.author a)))) /\
  (forall a,
     In a (deriveView E
             [ item "New Tech Launch" "Ana" "2024-01-10";
               item "Sports Update" "Juan" "2024-03-01";
               item "Weather" "Techie Reporter" "2024-02-15" ] "tech" k) <->
     a = item "New Tech Launch" "Ana" "2024-01-10" \/
     a = item "Weather" "Techie Reporter" "2024-02-15").
Proof.
  intros HE. split; [|split].
  - intros l kw a. now rewrite deriveView_In, keep_spec.
  - intros l kw a Hk Ha. now rewrite deriveView_In, keep_ascii_spec.
  - intros a. rewrite deriveView_In. cbn [In]. split.
    + intros [[<-|[<-|[<-|[]]]] Hk]; auto.
      rewrite keep_ascii in Hk by (exact HE || reflexivity).
      discriminate Hk.
    + intros [->| ->]; (split; [auto|]);
        rewrite keep_ascii by (exact HE || reflexivity); reflexivity.
Qed.

Lemma view_retains_iff_keyword_matches_witness :
  folds_ascii final_sigma_engine /\
  (forall a,
     In a (deriveView final_sigma_engine
             [ item "New Tech Launch" "Ana" "2024-01-10";
               item "Sports Update" "Juan" "2024-03-01";
               item "Weather" "Techie Reporter" "2024-02-15" ] "tech" SortDate)
     <->
     a = item "New Tech Launch" "Ana" "2024-01-10" \/
     a = item "Weather" "Techie Reporter" "2024-02-15").
Proof.
  split; [exact folds_ascii_final_sigma|].
  apply (view_retains_iff_keyword_matches final_sigma_engine SortDate
           folds_ascii_final_sigma).
Defined.

(** On ASCII text, typing more can only narrow the view: an article
    shown for a keyword is shown for every part of that keyword. *)
Theorem longer_keyword_narrows_view (E : JS.Engine) (l : list NewsItem.t)
    (k : SortKey) (pre kw post : string) :
  folds_ascii E ->
  is_ascii (pre ++ kw ++ post) = true ->
  forallb ascii_item l = true ->
  incl (deriveView E l (pre ++ kw ++ post) k) (deriveView E l kw k).
Proof.
  intros HE Hk Hl a. rewrite !deriveView_In. intros [Hin Hkeep].
  split; [exact Hin|].
  assert (Ha : ascii_item a = true).
  { rewrite forallb_forall in Hl. now apply Hl. }
  assert (Hkw : is_ascii kw = true).
  { rewrite !is_ascii_app, !andb_true_iff in Hk. tauto. }
  rewrite keep_ascii in * by assumption.
  rewrite keep_spec in *. cbn [JS.toLowerCase plain_engine] in *.
  assert (Hsub : forall t, occurs (JS.fold_ascii (pre ++ kw ++ post)) t ->
                           occurs (JS.fold_ascii kw) t).
  { intros t [p [q Ht]]. rewrite !fold_ascii_app in Ht.
    exists (p ++ JS.fold_ascii pre)%string, (JS.fold_ascii post ++ q)%string.
    rewrite Ht. now rewrite !string_app_assoc. }
  destruct Hkeep as [He | [Ht | Hu]].
  - left. apply string_app_empty in He. destruct He as [_ He].
    now apply string_app_empty in He.
  - right; left. now apply Hsub.
  - right; right. now apply Hsub.
Qed.

Lemma longer_keyword_narrows_view_witness :
  folds_ascii final_sigma_engine /\
  is_ascii ("Te" ++ "ch" ++ "ie") = true /\
  forallb ascii_item
    [ item "New Tech Launch" "Ana" "2024-01-10";
      item "Weather" "Techie Reporter" "2024-02-15" ] = true /\
  incl
    (deriveView final_sigma_engine
       [ item "New Tech Launch" "Ana" "2024-01-10";
         item "Weather" "Techie Reporter" "2024-02-15" ]
       ("Te" ++ "ch" ++ "ie") SortDate)
    (deriveView final_sigma_engine
       [ item "New Tech Launch" "Ana" "2024-01-10";
         item "Weather" "Techie Reporter" "2024-02-15" ] "ch" SortDate).
Proof.
  split; [exact folds_ascii_final_sigma|]. split; [reflexivity|].
  split; [reflexivity|].
  apply (longer_keyword_narrows_view final_sigma_engine _ SortDate "Te" "ch" "ie"
           folds_ascii_final_sigma); reflexivity.
Defined.

Lemma keep_case (E : JS.Engine) (kw1 kw2 : string) (a : NewsItem.t) :
  JS.toLowerCase E "" = "" ->
  JS.toLowerCase E kw1 = JS.toLowerCase E kw2 ->
  keep E kw1 a = keep E kw2 a.
Proof.
  intros H0 H. unfold keep. rewrite H.
  destruct (String.eqb_spec kw1 ""), (String.eqb_spec kw2 "");
    try reflexivity; subst; cbn [orb].
  - rewrite <- H, H0, includes_empty. reflexivity.
  - rewrite H0, includes_empty. reflexivity.
Qed.

(** The case of the keyword does not matter: two keywords to which
    the engine's [toLowerCase] gives the same lower-case form give the
    same view. *)
Theorem keyword_case_is_ignored (E : JS.Engine) (l : list NewsItem.t)
    (k : SortKey) (kw1 kw2 : string) :
  JS.toLowerCase E "" = "" ->
  JS.toLowerCase E kw1 = JS.toLowerCase E kw2 ->
  deriveView E l kw1 k = deriveView E l kw2 k.
Proof.
  intros H0 H. unfold deriveView. f_equal.
  apply filter_ext. intros a. now apply keep_case.
Qed.

Lemma keyword_case_is_ignored_witness :
  JS.toLowerCase final_sigma_engine "" = "" /\
  JS.toLowerCase final_sigma_engine "ΤΕΧ" = JS.toLowerCase final_sigma_engine "τεχ" /\
  deriveView final_sigma_engine
    [ item "Νέα τεχνολογία" "Ana" "2024-01-10";
      item "Sports Update" "Juan" "2024-03-01" ] "ΤΕΧ" SortDate =
  deriveView final_sigma_engine
    [ item "Νέα τεχνολογία" "Ana" "2024-01-10";
      item "Sports Update" "Juan" "2024-03-01" ] "τεχ" SortDate.
Proof.
  split; [reflexivity|]. split; [reflexivity|].
  apply (keyword_case_is_ignored final_sigma_engine); reflexivity.
Defined.

(** Deriving the view of a view gives that view again, for titles
    under any collation and for dates that all parse. *)
Theorem view_of_view_is_view (E : JS.Engine) (l : list NewsItem.t)
    (kw : string) (k : SortKey) :
  orderly E k l ->
  deriveView E (deriveView E l kw k) kw k = deriveView E l kw k.
Proof.
  intros H.
  destruct (orderly_view E k l kw H) as [cmp [HC Hsort]].
  assert (Hincl : incl (deriveView E l kw k) l).
  { intros a Ha. now apply deriveView_In in Ha. }
  rewrite (Hsort _ Hincl), (Hsort l (incl_refl l)).
  rewrite filter_all.
  - apply sort_sorted_id, sort_sorted, HC.
  - apply Forall_forall. intros a Ha.
    apply sort_In, filter_In in Ha. tauto.
Qed.

Lemma view_of_view_is_view_witness :
  orderly plain_engine SortTitle
    [ item "Banana" "x" "2024-01-10"; item "apple" "y" "2024-03-01" ] /\
  deriveView plain_engine
    (deriveView plain_engine
       [ item "Banana" "x" "2024-01-10"; item "apple" "y" "2024-03-01" ]
       "a" SortTitle) "a" SortTitle =
  deriveView plain_engine
    [ item "Banana" "x" "2024-01-10"; item "apple" "y" "2024-03-01" ]
    "a" SortTitle.
Proof.
  split; [exact alphabetic_collation|].
  apply (view_of_view_is_view plain_engine _ "a" SortTitle).
  exact alphabetic_collation.
Defined.

(* ================================================================== *)
(** ** More on calls and runs *)



(** A call leaves the URL and the view criteria alone, whatever the
    URL and however the request settles: the next view is taken under
    the keyword and sort key that were there before. *)
Theorem call_keeps_url_and_criteria (production : bool)
    (net : Request -> Settled) (E : JS.Engine) (s : AppState) :
  url (scrapeNews production net s) = url s /\
  filterKeyword (scrapeNews production net s) = filterKeyword s /\
  sortBy (scrapeNews production net s) = sortBy s /\
  filteredAndSortedNews E (scrapeNews production net s) =
    deriveView E (news (scrapeNews production net s))
      (filterKeyword s) (sortBy s).
Proof.
  unfold filteredAndSortedNews, scrapeNews, scrapeNews_begin.
  destruct (JS.truthy (url s)); cbn; [|repeat split].
  destruct (net _) as [[m|d]|e]; unfold scrapeNews_settle, and_then;
    try destruct (has_news d); repeat split.
Qed.

Module RunFacts.
Import Session.

Lemma take_out_Forall {A : Type} (P : A -> Prop) (i : nat) (l rest : list A) :
  take_out i l = Some rest -> Forall P l -> Forall P rest.
Proof.
  revert i rest. induction l as [|x l IH]; intros i rest Ht Hall.
  - now rewrite SessionFacts.take_out_nil in Ht.
  - apply Forall_cons_iff in Hall. destruct Hall as [Hx Hl].
    destruct i as [|j]; cbn [take_out] in Ht.
    + now injection Ht as <-.
    + destruct (take_out j l) as [rest'|] eqn:Hj; [|discriminate].
      injection Ht as <-. constructor; [exact Hx | now apply IH with j].
Qed.

Lemma newsUrls_truthy (i : nat) (v : string) :
  nth_error newsUrls i = Some v -> JS.truthy v = true.
Proof.
  intros H. apply nth_error_In in H.
  assert (Hall : Forall (fun u => JS.truthy u = true) newsUrls)
    by (repeat constructor).
  rewrite Forall_forall in Hall. now apply Hall.
Qed.

Lemma handle_fetching (production : bool) (e : Event) (w w' : t) :
  fetching_holds_nothing w -> handle production e w = Some w' ->
  fetching_holds_nothing w'.
Proof.
  unfold fetching_holds_nothing. intros Inv.
  destruct e as [ok|v|i| |i r|v|k|]; cbn [handle].
  - destruct (probing w); [|discriminate]. intros [= <-]. cbn.
    destruct ok; exact Inv.
  - intros [= <-]. exact Inv.
  - destruct (nth_error newsUrls i); [|discriminate].
    intros [= <-]. exact Inv.
  - unfold scrapeNews_begin. destruct (JS.truthy (url (app w))); cbn.
    + intros [= <-]. cbn. intros _. split; [reflexivity|].
      intros Hnil. now apply app_eq_nil in Hnil.
    + intros [= <-]. cbn. now rewrite app_nil_r.
  - destruct (take_out i (inflight w)); [|discriminate].
    intros [= <-]. cbn. discriminate.
  - intros [= <-]. exact Inv.
  - intros [= <-]. exact Inv.
  - intros [= <-]. exact Inv.
Qed.

Lemma run_fetching (production : bool) (es : list Event) (w w' : t) :
  fetching_holds_nothing w ->
  run (handle production) es w = Some w' -> fetching_holds_nothing w'.
Proof.
  revert w. induction es as [|e es IH]; intros w Inv; cbn [run].
  - now intros [= <-].
  - destruct (handle production e w) as [w1|] eqn:Hs; [|discriminate].
    apply IH. now apply handle_fetching with production e w.
Qed.

Lemma ui_step_requests (production : bool) (e : Event) (w w' : t) :
  Forall (well_formed production) (inflight w) ->
  ui_step production e w = Some w' ->
  Forall (well_formed production) (inflight w').
Proof.
  unfold ui_step. intros Inv.
  destruct (enabled e (app w)) eqn:En; [|discriminate].
  destruct e as [ok|v|i| |i r|v|k|]; cbn [handle].
  - destruct (probing w); [|discriminate]. now intros [= <-].
  - now intros [= <-].
  - destruct (nth_error newsUrls i); [|discriminate]. now intros [= <-].
  - cbn [enabled] in En. apply negb_true_iff, orb_false_iff in En.
    destruct En as [_ Hu]. apply negb_false_iff in Hu.
    unfold scrapeNews_begin. rewrite Hu. cbn.
    intros [= <-]. cbn. apply Forall_app. split; [exact Inv|].
    constructor; [|constructor]. split; [reflexivity|].
    now apply truthy_true_iff.
  - destruct (take_out i (inflight w)) as [rest|] eqn:Ht; [|discriminate].
    intros [= <-]. cbn. now apply take_out_Forall with i (inflight w).
  - now intros [= <-].
  - now intros [= <-].
  - now intros [= <-].
Qed.

Lemma run_requests (production : bool) (es : list Event) (w w' : t) :
  Forall (well_formed production) (inflight w) ->
  run (ui_step production) es w = Some w' ->
  Forall (well_formed production) (inflight w').
Proof.
  revert w. induction es as [|e es IH]; intros w Inv; cbn [run].
  - now intros [= <-].
  - destruct (ui_step production e w) as [w1|] eqn:Hs; [|discriminate].
    apply IH. now apply ui_step_requests with e w.
Qed.

Lemma ui_step_url_kept (production : bool) (e : Event) (w w' : t) :
  one_at_a_time w -> url_kept_while_out w ->
  ui_step production e w = Some w' -> url_kept_while_out w'.
Proof.
  unfold ui_step, url_kept_while_out. intros Hone Inv.
  destruct (enabled e (app w)) eqn:En; [|discriminate].
  destruct e as [ok|v|i| |i r|v|k|]; cbn [handle].
  - destruct (probing w); [|discriminate]. intros [= <-]. cbn.
    destruct ok; exact Inv.
  - cbn [enabled] in En. apply negb_true_iff in En.
    intros [= <-]. cbn. left.
    destruct Hone as [[_ Hi]|[Hl _]]; [exact Hi | congruence].
  - destruct (nth_error newsUrls i) as [v|] eqn:Hn; [|discriminate].
    intros [= <-]. cbn. right. now apply newsUrls_truthy with i.
  - cbn [enabled] in En. apply negb_true_iff, orb_false_iff in En.
    destruct En as [_ Hu]. apply negb_false_iff in Hu.
    unfold scrapeNews_begin. rewrite Hu. cbn.
    intros [= <-]. cbn. now right.
  - destruct (take_out i (inflight w)) as [rest|] eqn:Ht; [|discriminate].
    intros [= <-]. cbn [app inflight]. rewrite settle_url.
    destruct Inv as [Hi|Hu]; [|now right].
    rewrite Hi, SessionFacts.take_out_nil in Ht. discriminate.
  - intros [= <-]. exact Inv.
  - intros [= <-]. exact Inv.
  - intros [= <-]. exact Inv.
Qed.

Lemma run_url_kept (production : bool) (es : list Event) (w w' : t) :
  one_at_a_time w -> url_kept_while_out w ->
  run (ui_step production) es w = Some w' ->
  one_at_a_time w' /\ url_kept_while_out w'.
Proof.
  revert w. induction es as [|e es IH]; intros w Hone Inv; cbn [run].
  - intros [= <-]. now split.
  - destruct (ui_step production e w) as [w1|] eqn:Hs; [|discriminate].
    apply IH.
    + now apply SessionFacts.ui_step_one_at_a_time with production e w.
    + now apply ui_step_url_kept with production e w.
Qed.

End RunFacts.

Module PageFacts.
Import Session.

Lemma run_app (step : Event -> t -> option t) (es1 es2 : list Event) (w : t) :
  run step (es1 ++ es2) w =
  match run step es1 w with
  | Some w' => run step es2 w'
  | None => None
  end.
Proof.
  revert w. induction es1 as [|e es1 IH]; intros w; cbn [run List.app];
    [reflexivity|].
  destruct (step e w); [apply IH | reflexivity].
Qed.












End PageFacts.

(** In every run, gated by the page or not, while [loading] is on the
    result set is empty, so no stale card can be on the page during a
    fetch, and a request is still out to turn [loading] off. *)
Theorem fetch_holds_no_articles (production : bool)
    (es : list Session.Event) (w : Session.t) :
  Session.run (Session.handle production) es Session.start = Some w ->
  loading (Session.app w) = true ->
  news (Session.app w) = [] /\ Session.inflight w <> [].
Proof.
  intros Hrun.
  apply (RunFacts.run_fetching production es Session.start w); [|exact Hrun].
  intros Hl. discriminate Hl.
Qed.

Lemma fetch_holds_no_articles_witness :
  Session.run (Session.handle false) typed_and_clicked Session.start
    = Some awaiting_response /\
  loading (Session.app awaiting_response) = true /\
  news (Session.app awaiting_response) = [] /\
  Session.inflight awaiting_response <> [].
Proof.
  split; [reflexivity|]. split; [reflexivity|].
  apply (fetch_holds_no_articles false typed_and_clicked); reflexivity.
Defined.

(** Through the page only well-formed requests go out: every request
    in flight targets the scrape endpoint and carries a non-empty URL.
    A click the page admits never takes the validation branch of
    [scrapeNews]: it turns [loading] on, clears error and results, and
    posts the URL of the field as it stands. *)
Theorem page_posts_only_entered_urls (production : bool)
    (es : list Session.Event) (w : Session.t) :
  Session.run (Session.ui_step production) es Session.start = Some w ->
  Forall (well_formed production) (Session.inflight w) /\
  (forall w',
     Session.ui_step production Session.ClickScrape w = Some w' ->
     Session.app w' =
       setNews [] (setError "" (setLoading true (Session.app w))) /\
     Session.inflight w' =
       (Session.inflight w ++
        [ {| target := API_BASE_URL production ++ "/scrape";
             body_url := url (Session.app w) |} ])%list).
Proof.
  intros Hrun. split.
  - apply (RunFacts.run_requests production es Session.start w);
      [constructor | exact Hrun].
  - intros w'. unfold Session.ui_step.
    destruct (Session.enabled Session.ClickScrape (Session.app w)) eqn:En;
      [|discriminate].
    cbn [Session.enabled] in En. apply negb_true_iff, orb_false_iff in En.
    destruct En as [_ Hu]. apply negb_false_iff in Hu.
    cbn [Session.handle]. unfold scrapeNews_begin. rewrite Hu. cbn.
    intros [= <-]. now split.
Qed.

Lemma page_posts_only_entered_urls_witness :
  Session.run (Session.ui_step false) typed_and_clicked Session.start
    = Some awaiting_response /\
  Forall (well_formed false) (Session.inflight awaiting_response).
Proof.
  split; [reflexivity|].
  apply (page_posts_only_entered_urls false typed_and_clicked). reflexivity.
Defined.

(** Through the page a retry is always on offer: when the response of
    the request in flight arrives, whatever it is, nothing is left in
    flight and the Scrape button is enabled again. *)
Theorem retry_always_offered (production : bool)
    (es : list Session.Event) (w w' : Session.t) (i : nat) (r : Settled) :
  Session.run (Session.ui_step production) es Session.start = Some w ->
  Session.ui_step production (Session.ScrapeSettled i r) w = Some w' ->
  Session.enabled Session.ClickScrape (Session.app w') = true /\
  Session.inflight w' = [].
Proof.
  intros Hrun Hstep.
  destruct (RunFacts.run_url_kept production es Session.start w
              SessionFacts.start_one_at_a_time (or_introl eq_refl) Hrun)
    as [Hone Hurl].
  pose proof (SessionFacts.ui_step_one_at_a_time production _ w w' Hone Hstep)
    as Hone'.
  pose proof (RunFacts.ui_step_url_kept production _ w w' Hone Hurl Hstep)
    as Hurl'.
  unfold Session.ui_step in Hstep. cbn [Session.enabled Session.handle] in Hstep.
  destruct (Session.take_out i (Session.inflight w)) as [rest|] eqn:Ht;
    [|discriminate].
  injection Hstep as <-.
  cbn [Session.app Session.inflight Session.enabled] in *.
  destruct Hone as [[_ Hi]|[_ Hlen]].
  - rewrite Hi, SessionFacts.take_out_nil in Ht. discriminate.
  - assert (Hrest : rest = [])
      by now apply SessionFacts.take_out_single with i (Session.inflight w).
    split; [|exact Hrest].
    rewrite settle_url, settle_loading.
    destruct Hurl as [Hi|Hu]; [|now rewrite Hu].
    rewrite Hi in Hlen. discriminate.
Qed.

Lemma retry_always_offered_witness :
  Session.run (Session.ui_step false) typed_and_clicked Session.start
    = Some awaiting_response /\
  Session.ui_step false (Session.ScrapeSettled 0 (Rejected blocked_error))
    awaiting_response
    = Some {| Session.app :=
                scrapeNews_settle (Rejected blocked_error)
                  (Session.app awaiting_response);
              Session.inflight := []; Session.probing := true |} /\
  Session.enabled Session.ClickScrape
    (scrapeNews_settle (Rejected blocked_error)
       (Session.app awaiting_response)) = true.
Proof.
  split; [reflexivity|]. split; [reflexivity|].
  apply (retry_always_offered false typed_and_clicked awaiting_response
           _ 0 (Rejected blocked_error) eq_refl eq_refl).
Defined.

(** In every run the keyword field and the sort selector are usable
    exactly when the page shows the grid of cards, and the cards are
    then the derived view of the result set. *)
Theorem criteria_usable_iff_cards_shown (production : bool) (E : JS.Engine)
    (es : list Session.Event) (w : Session.t) :
  Session.run (Session.handle production) es Session.start = Some w ->
  sort_disabled (render E (Session.app w)) =
    filter_disabled (render E (Session.app w)) /\
  (filter_disabled (render E (Session.app w)) = false <->
   cards (render E (Session.app w)) =
     Some (filteredAndSortedNews E (Session.app w))).
Proof.
  intros Hrun. split; [reflexivity|].
  pose proof (fun Hl => proj1 (RunFacts.run_fetching production es
                Session.start w (fun H => ltac:(discriminate H)) Hrun Hl))
    as Hinv.
  cbn [render filter_disabled cards].
  destruct (news (Session.app w)) as [|a l] eqn:Hn.
  - cbn. rewrite andb_false_r. split; discriminate.
  - destruct (loading (Session.app w)) eqn:Hl.
    + specialize (Hinv eq_refl). discriminate Hinv.
    + cbn. split; reflexivity.
Qed.

Lemma criteria_usable_iff_cards_shown_witness :
  Session.run (Session.handle false) answered Session.start
    = Some showing_articles /\
  filter_disabled (render plain_engine (Session.app showing_articles)) = false /\
  cards (render plain_engine (Session.app showing_articles)) =
    Some (filteredAndSortedNews plain_engine (Session.app showing_articles)) /\
  filteredAndSortedNews plain_engine (Session.app showing_articles) =
    [ item "a2" "y" "2024-03-01"; item "a1" "x" "2024-01-10" ].
Proof.
  split; [reflexivity|]. split; [reflexivity|]. split; [|reflexivity].
  apply (criteria_usable_iff_cards_shown false plain_engine
           answered showing_articles eq_refl).
  reflexivity.
Defined.

(** The result set is replaced wholesale, never merged or made up:
    one step leaves it as it was, empties it, or sets it to the list
    of the response that just arrived. *)
Lemma handle_news (production : bool) (e : Session.Event)
    (w w' : Session.t) :
  Session.handle production e w = Some w' ->
  news (Session.app w') = news (Session.app w) \/
  news (Session.app w') = [] \/
  exists i l, e = Session.ScrapeSettled i (ok_with l) /\
              news (Session.app w') = l.
Proof.
  destruct e as [ok|v|i| |i r|v|k|]; cbn [Session.handle].
  - destruct (Session.probing w); [|discriminate]. intros [= <-]. cbn.
    left. now destruct ok.
  - intros [= <-]. now left.
  - destruct (nth_error newsUrls i); [|discriminate].
    intros [= <-]. now left.
  - unfold scrapeNews_begin.
    destruct (JS.truthy (url (Session.app w))); cbn; intros [= <-]; cbn.
    + right; now left.
    + now left.
  - destruct (Session.take_out i (Session.inflight w)); [|discriminate].
    intros [= <-]. cbn [Session.app].
    destruct r as [[t|[[m|]]]|e]; unfold scrapeNews_settle, and_then,
      has_news, news_of; cbn.
    + now left.
    + destruct m as [|a m]; cbn; [now left|].
      right; right. exists i, (a :: m). now split.
    + now left.
    + now left.
  - intros [= <-]. now left.
  - intros [= <-]. now left.
  - intros [= <-]. now left.
Qed.

Lemma run_news (production : bool) (es : list Session.Event)
    (w w' : Session.t) :
  Session.run (Session.handle production) es w = Some w' ->
  news (Session.app w') = news (Session.app w) \/
  news (Session.app w') = [] \/
  exists i l, In (Session.ScrapeSettled i (ok_with l)) es /\
              news (Session.app w') = l.
Proof.
  revert w. induction es as [|e es IH]; intros w; cbn [Session.run].
  - intros [= <-]. now left.
  - destruct (Session.handle production e w) as [w1|] eqn:Hs; [|discriminate].
    intros Hrun. destruct (IH w1 Hrun) as [H | [H | [i [l [Hin H]]]]].
    + destruct (handle_news production e w w1 Hs) as [H1 | [H1 | [i [l [-> H1]]]]].
      * left. congruence.
      * right; left. congruence.
      * right; right. exists i, l. split; [now left | congruence].
    + right; now left.
    + right; right. exists i, l. split; [now right | exact H].
Qed.

(** In every run the result set is either empty or exactly the list
    of one fulfilled response of that run: articles are never merged
    across responses and never come from anywhere else. *)
Theorem result_set_is_one_response (production : bool)
    (es : list Session.Event) (w : Session.t) :
  Session.run (Session.handle production) es Session.start = Some w ->
  news (Session.app w) = [] \/
  exists i l, In (Session.ScrapeSettled i (ok_with l)) es /\
              news (Session.app w) = l.
Proof.
  intros Hrun.
  destruct (run_news production es Session.start w Hrun) as [H | [H | H]];
    [left; exact H | left; exact H | right; exact H].
Qed.

Lemma result_set_is_one_response_witness :
  Session.run (Session.handle false) answered Session.start
    = Some showing_articles /\
  news (Session.app showing_articles) <> [] /\
  (news (Session.app showing_articles) = [] \/
   exists i l, In (Session.ScrapeSettled i (ok_with l)) answered /\
               news (Session.app showing_articles) = l).
Proof.
  split; [reflexivity|]. split; [discriminate|].
  apply (result_set_is_one_response false answered). reflexivity.
Defined.

(** The events the machine admits are those the rendered controls
    accept: each gate is the negation of the control's [disabled]
    attribute, and the error can be closed while the snackbar is
    open. *)
Lemma enabled_matches_render (E : JS.Engine) (s : AppState) :
  (forall v, Session.enabled (Session.ChangeUrl v) s
             = negb (url_disabled (render E s))) /\
  Session.enabled Session.ClickScrape s = negb (scrape_disabled (render E s)) /\
  (forall v, Session.enabled (Session.ChangeFilter v) s
             = negb (filter_disabled (render E s))) /\
  (forall k, Session.enabled (Session.ChangeSort k) s
             = negb (sort_disabled (render E s))) /\
  (Session.enabled Session.CloseError s = true <->
   snackbar (render E s) = Some (error s)).
Proof.
  repeat split; cbn [Session.enabled render snackbar]; unfold when_text;
    destruct (JS.truthy (error s)); congruence.
Qed.

(* ================================================================== *)
(** ** Responses on the page *)


(** A fulfilled response whose body is [null]: reading [.news] throws,
    the [catch] block shows the thrown message, no article is set. *)
Lemma null_body_is_caught (m : string) (s : AppState) :
  error (scrapeNews_settle (Fulfilled (Nullish m)) s) = ("Error: " ++ m)%string /\
  news (scrapeNews_settle (Fulfilled (Nullish m)) s) = news s /\
  loading (scrapeNews_settle (Fulfilled (Nullish m)) s) = false.
Proof. repeat split. Qed.







